(** * convert_to_ios.py: PNG chunk rewriting for iOS screenshot recognition

    A shallow embedding of [convert_to_ios.py]: the chunk codec
    ([create_png_chunk]), the chunk stream parser
    ([extract_chunks_from_png]), the positional inserter
    ([insert_chunk_after]) and the orchestrator ([convert_android_to_ios]),
    followed by the properties of the specification that concern them.

    Byte strings are [list byte]; Python integers are [Z]; Python
    exceptions are the [Raise] results of an error monad; the file system
    is a finite map from paths to files. *)

From Stdlib Require Import ZArith Lia List.
From Stdlib Require Strings.Byte.
From stdpp Require Import base option list gmap strings pretty sorting.

Local Open Scope Z_scope.

(** ** Bytes and Python slices *)

Abbreviation byte := Corelib.Init.Byte.byte.
Abbreviation bytes := (list byte).

#[global] Instance byte_eq_decision : EqDecision byte := Byte.byte_eq_dec.

(** The integer value of a byte, as [data[i]] gives it in Python. *)
Definition byte_val (b : byte) : Z := Z.of_N (Byte.to_N b).

(** The byte holding the low eight bits of [z]. *)
Definition byte_of_Z (z : Z) : byte :=
  default Byte.x00 (Byte.of_N (Z.to_N (z mod 256))).

(** A bytes literal [b'...'] of printable characters. *)
Definition b (s : string) : bytes := String.list_byte_of_string s.

(** Python turns a slice bound into a position of the sequence: a negative
    bound counts from the end, and every bound is clamped to [0, n]. *)
Definition clamp_index (n i : Z) : Z :=
  if i <? 0 then Z.max 0 (n + i) else Z.min i n.

(** [data[lo:hi]] *)
Definition slice (data : bytes) (lo hi : Z) : bytes :=
  let n := Z.of_nat (length data) in
  let lo' := clamp_index n lo in
  let hi' := clamp_index n hi in
  take (Z.to_nat (hi' - lo')) (drop (Z.to_nat lo') data).

(** [data[:hi]] *)
Definition slice_to (data : bytes) (hi : Z) : bytes :=
  take (Z.to_nat (clamp_index (Z.of_nat (length data)) hi)) data.

(** [data[lo:]] *)
Definition slice_from (data : bytes) (lo : Z) : bytes :=
  drop (Z.to_nat (clamp_index (Z.of_nat (length data)) lo)) data.

(** ** Exceptions *)

Inductive exn : Type :=
| ValueError          (* raised by [extract_chunks_from_png] on a bad signature *)
| StructError         (* struct.error, from [struct.pack] and [struct.unpack] *)
| FileNotFoundError   (* [open] of a missing path; [subprocess.run] of a missing tool *)
| CalledProcessError (stderr : string)  (* [subprocess.run(check=True)], non-zero exit *)
| ImageError          (* PIL cannot open the input *)
| FuelExhausted.      (* a loop of the model ran out of fuel; never raised *)

Inductive result (A : Type) : Type :=
| Ok (a : A)
| Raise (e : exn).
Arguments Ok {A} a.
Arguments Raise {A} e.

#[global] Instance result_ret : MRet result := fun A a => Ok a.
#[global] Instance result_bind : MBind result := fun A B f m =>
  match m with
  | Ok a => f a
  | Raise e => Raise e
  end.

(** ** struct.pack('>I', n) and struct.unpack('>I', bs) *)

Definition pack_be32 (n : Z) : result bytes :=
  if (0 <=? n) && (n <? 2 ^ 32) then
    Ok [byte_of_Z (Z.shiftr n 24); byte_of_Z (Z.shiftr n 16);
        byte_of_Z (Z.shiftr n 8); byte_of_Z n]
  else Raise StructError.

Definition unpack_be32 (bs : bytes) : result Z :=
  match bs with
  | [b3; b2; b1; b0] =>
      Ok (Z.lor (Z.shiftl (byte_val b3) 24)
         (Z.lor (Z.shiftl (byte_val b2) 16)
         (Z.lor (Z.shiftl (byte_val b1) 8) (byte_val b0))))
  | _ => Raise StructError
  end.

(** ** zlib.crc32

    The CRC-32 of zlib (reflected polynomial [0xEDB88320], initial value and
    final complement [0xFFFFFFFF]), computed bit by bit. *)

Definition crc32_bit (crc : Z) : Z :=
  if Z.testbit crc 0 then Z.lxor (Z.shiftr crc 1) 0xEDB88320
  else Z.shiftr crc 1.

Definition crc32_byte (crc : Z) (x : byte) : Z :=
  Nat.iter 8 crc32_bit (Z.lxor crc (byte_val x)).

Definition crc32 (data : bytes) : Z :=
  Z.lxor (fold_left crc32_byte data 0xFFFFFFFF) 0xFFFFFFFF.

(** ** create_png_chunk *)

Definition create_png_chunk (chunk_type data : bytes) : result bytes :=
  let crc := Z.land (crc32 (chunk_type ++ data)) 0xffffffff in
  len_field ← pack_be32 (Z.of_nat (length data));
  crc_field ← pack_be32 crc;
  Ok (len_field ++ chunk_type ++ data ++ crc_field).

(** ** extract_chunks_from_png *)

(** A chunk as the parser yields it: [(chunk_type, chunk_data)]. *)
Definition chunk : Type := bytes * bytes.

(** [b'\x89PNG\r\n\x1a\n'] *)
Definition PNG_SIGNATURE : bytes :=
  [Byte.x89; Byte.x50; Byte.x4e; Byte.x47; Byte.x0d; Byte.x0a; Byte.x1a; Byte.x0a].

(** The [while i < len(data) - 12] loop. Each iteration moves [i] forward
    by at least 12, so [length data] iterations are more than the loop can
    make; [fuel] counts them down. *)
Fixpoint extract_loop (fuel : nat) (data : bytes) (i : Z) (chunks : list chunk)
  : result (list chunk) :=
  if i <? Z.of_nat (length data) - 12 then
    match fuel with
    | O => Raise FuelExhausted
    | S fuel' =>
        size ← unpack_be32 (slice data i (i + 4));
        let chunk_type := slice data (i + 4) (i + 8) in
        let chunk_data := slice data (i + 8) (i + 8 + size) in
        let chunks := chunks ++ [(chunk_type, chunk_data)] in
        let i := i + (12 + size) in
        if decide (chunk_type = b "IEND") then Ok chunks
        else extract_loop fuel' data i chunks
    end
  else Ok chunks.

(** The body of [extract_chunks_from_png] once the file has been read. *)
Definition extract_chunks_from_bytes (data : bytes) : result (list chunk) :=
  if decide (slice_to data 8 = PNG_SIGNATURE) then
    extract_loop (length data) data 8 []
  else Raise ValueError.

(** ** insert_chunk_after *)

(** The scan for [insert_after_chunk]: [Some chunk_end] when it [break]s on
    a match, [None] when the loop condition fails first. *)
Fixpoint find_insert_pos (fuel : nat) (png_data insert_after_chunk : bytes) (i : Z)
  : result (option Z) :=
  if i <? Z.of_nat (length png_data) - 12 then
    match fuel with
    | O => Raise FuelExhausted
    | S fuel' =>
        size ← unpack_be32 (slice png_data i (i + 4));
        let chunk_type := slice png_data (i + 4) (i + 8) in
        let chunk_end := i + 12 + size in
        if decide (chunk_type = insert_after_chunk) then Ok (Some chunk_end)
        else find_insert_pos fuel' png_data insert_after_chunk chunk_end
    end
  else Ok None.

Definition insert_chunk_after
    (png_data insert_after_chunk new_chunk_type new_chunk_data : bytes)
  : result bytes :=
  found ← find_insert_pos (length png_data) png_data insert_after_chunk 8;
  let insert_pos :=
    match found with
    | Some pos => pos
    | None => Z.of_nat (length png_data) - 12
    end in
  new_chunk ← create_png_chunk new_chunk_type new_chunk_data;
  Ok (slice_to png_data insert_pos ++ new_chunk ++ slice_from png_data insert_pos).

(** ** Classification and the base PNG (convert_android_to_ios, step 1) *)

Record classified : Type := Classified {
  ihdr_chunk : option chunk;
  srgb_chunk : option chunk;
  idat_chunks : list chunk;
  other_chunks : list chunk
}.

Definition classify_step (st : classified) (c : chunk) : classified :=
  let '(chunk_type, chunk_data) := c in
  if decide (chunk_type = b "IHDR") then
    Classified (Some (chunk_type, chunk_data)) (srgb_chunk st) (idat_chunks st) (other_chunks st)
  else if decide (chunk_type = b "sRGB") then
    Classified (ihdr_chunk st) (Some (chunk_type, chunk_data)) (idat_chunks st) (other_chunks st)
  else if decide (chunk_type = b "IDAT") then
    Classified (ihdr_chunk st) (srgb_chunk st) (idat_chunks st ++ [(chunk_type, chunk_data)]) (other_chunks st)
  else if decide (chunk_type ∉ [b "IEND"; b "eXIf"; b "pHYs"; b "sBIT"]) then
    Classified (ihdr_chunk st) (srgb_chunk st) (idat_chunks st) (other_chunks st ++ [(chunk_type, chunk_data)])
  else st.

Definition classify (chunks : list chunk) : classified :=
  fold_left classify_step chunks (Classified None None [] []).

(** [for chunk_type, chunk_data in chunks: png_data += create_png_chunk(...)] *)
Fixpoint append_chunks (png_data : bytes) (chunks : list chunk) : result bytes :=
  match chunks with
  | [] => Ok png_data
  | (chunk_type, chunk_data) :: rest =>
      c ← create_png_chunk chunk_type chunk_data;
      append_chunks (png_data ++ c) rest
  end.

Definition build_base_png (cl : classified) : result bytes :=
  let png_data := PNG_SIGNATURE in
  png_data ← match ihdr_chunk cl with
              | Some (chunk_type, chunk_data) =>
                  c ← create_png_chunk chunk_type chunk_data; Ok (png_data ++ c)
              | None => Ok png_data
              end;
  png_data ← match srgb_chunk cl with
              | Some (chunk_type, chunk_data) =>
                  c ← create_png_chunk chunk_type chunk_data; Ok (png_data ++ c)
              | None =>
                  c ← create_png_chunk (b "sRGB") [Byte.x00]; Ok (png_data ++ c)
              end;
  png_data ← append_chunks png_data (other_chunks cl);
  png_data ← append_chunks png_data (idat_chunks cl);
  c ← create_png_chunk (b "IEND") [];
  Ok (png_data ++ c).

(** Lines 156-197: parse the input, classify, rebuild. *)
Definition preassemble (data : bytes) : result bytes :=
  chunks ← extract_chunks_from_bytes data;
  build_base_png (classify chunks).

(** ** Inserting pHYs and sBIT (convert_android_to_ios, step 3) *)

(** [for chunk_type, _ in temp_chunks: if chunk_type == ty: found = True; break] *)
Definition has_chunk (ty : bytes) (chunks : list chunk) : bool :=
  existsb (λ c, bool_decide (c.1 = ty)) chunks.

(** [struct.pack('>IIB', 5669, 5669, 1)] *)
Definition phys_data : result bytes :=
  x ← pack_be32 5669; y ← pack_be32 5669; Ok (x ++ y ++ [byte_of_Z 1]).

(** [struct.pack('BBB', 8, 8, 8)] *)
Definition sbit_data : bytes := [byte_of_Z 8; byte_of_Z 8; byte_of_Z 8].

(** Lines 251-274 on the bytes and the chunk list read from the temporary
    file. *)
Definition insert_missing_chunks (png_data : bytes) (temp_chunks : list chunk)
  : result bytes :=
  png_data ← (if has_chunk (b "pHYs") temp_chunks then Ok png_data
              else d ← phys_data;
                   insert_chunk_after png_data (b "eXIf") (b "pHYs") d);
  png_data ← (if has_chunk (b "sBIT") temp_chunks then Ok png_data
              else insert_chunk_after png_data (b "pHYs") (b "sBIT") sbit_data);
  Ok png_data.

(** The step on the bytes of the temporary file alone: the chunk list is
    parsed from the same bytes. *)
Definition reposition (png_data : bytes) : result bytes :=
  temp_chunks ← extract_chunks_from_bytes png_data;
  insert_missing_chunks png_data temp_chunks.

(** ** The file system, the console and the external tools *)

Record file : Type := File { content : bytes; mtime : Z }.

(** What a conversion acts on: the files by path, and the lines printed. *)
Record state : Type := State {
  files : gmap string file;
  stdout : list string
}.

(** A computation of the orchestrator: it may raise, and it changes the
    state whether it raises or not. *)
Definition M (A : Type) : Type := state → result A * state.

#[global] Instance M_ret : MRet M := λ A a st, (Ok a, st).
#[global] Instance M_bind : MBind M := λ A B f m st,
  match m st with
  | (Ok a, st') => f a st'
  | (Raise e, st') => (Raise e, st')
  end.

Definition lift {A} (r : result A) : M A := λ st, (r, st).
Definition raise {A} (e : exn) : M A := lift (Raise e).

(** [try: body except <handler>] *)
Definition try_except {A} (body : M A) (handler : exn → M A) : M A := λ st,
  match body st with
  | (Ok a, st') => (Ok a, st')
  | (Raise e, st') => handler e st'
  end.

Definition print (line : string) : M unit := λ st,
  (Ok tt, State (files st) (stdout st ++ [line])).

(** [if not hasattr(convert_android_to_ios, '_batch_mode'): print(line)] *)
Definition print_unless_batch (batch_mode : bool) (line : string) : M unit :=
  if negb batch_mode then print line else mret tt.

(** The outcome of running exiftool on a target file. *)
Inductive tool_outcome : Type :=
| ToolOk (out : bytes)
    (* exit status 0; the target now holds [out] *)
| ToolFailed (stderr : string) (left : option bytes)
    (* non-zero exit status; the target is left holding [left], or is gone *)
| ToolMissing.
    (* no exiftool on the execution path *)

Definition tool_failure (o : tool_outcome) : Prop :=
  match o with
  | ToolOk _ => False
  | _ => True
  end.

(** The collaborators of a conversion: the image library, the clock, and the
    external tools. A tool sees the files and acts on its target file only;
    the two verification commands only read. *)
Class Collaborators : Type := {
  image : Type;
  splitext : string → string * string;            (* os.path.splitext *)
  pil_open : bytes → option image;                (* Image.open; None: it raises *)
  pil_is_rgb : image → bool;                      (* img.mode == 'RGB' *)
  pil_convert_rgb : image → image;                (* img.convert('RGB') *)
  pil_save_png : image → bytes;                   (* what img.save(_, 'PNG') writes *)
  pil_exif_datetime_original : image → option string;  (* lines 130-137 *)
  strftime : Z → string;                          (* "%Y:%m:%d %H:%M:%S" of a time *)
  clock : Z;                                      (* the current time *)
  exiftool : list string → gmap string file → tool_outcome;
  exiftool_print_tag : list string → gmap string file → result string;
  pngcheck : list string → gmap string file → result string;
  str_strip : string → string;                    (* str.strip *)
  chunk_order_lines : string → list string        (* line 322, each line stripped *)
}.

Section Orchestrator.

Context `{Collaborators}.

Definition read_file (path : string) : M bytes := λ st,
  match files st !! path with
  | Some f => (Ok (content f), st)
  | None => (Raise FileNotFoundError, st)
  end.

Definition write_file (path : string) (data : bytes) : M unit := λ st,
  (Ok tt, State (<[path := File data clock]> (files st)) (stdout st)).

Definition path_exists (path : string) : M bool := λ st,
  (Ok (bool_decide (is_Some (files st !! path))), st).

Definition remove (path : string) : M unit := λ st,
  match files st !! path with
  | Some _ => (Ok tt, State (delete path (files st)) (stdout st))
  | None => (Raise FileNotFoundError, st)
  end.

Definition getmtime (path : string) : M Z := λ st,
  match files st !! path with
  | Some f => (Ok (mtime f), st)
  | None => (Raise FileNotFoundError, st)
  end.

Definition utime (path : string) (t : Z) : M unit := λ st,
  match files st !! path with
  | Some f => (Ok tt, State (<[path := File (content f) t]> (files st)) (stdout st))
  | None => (Raise FileNotFoundError, st)
  end.

(** [Image.open(path)] *)
Definition image_open (path : string) : M image :=
  data ← read_file path;
  match pil_open data with
  | Some img => mret img
  | None => raise ImageError
  end.

(** [subprocess.run(cmd, check=True, ...)] where [cmd] writes to [target]. *)
Definition run_exiftool (cmd : list string) (target : string) : M unit := λ st,
  match exiftool cmd (files st) with
  | ToolOk out =>
      (Ok tt, State (<[target := File out clock]> (files st)) (stdout st))
  | ToolFailed stderr (Some data) =>
      (Raise (CalledProcessError stderr),
       State (<[target := File data clock]> (files st)) (stdout st))
  | ToolFailed stderr None =>
      (Raise (CalledProcessError stderr),
       State (delete target (files st)) (stdout st))
  | ToolMissing => (Raise FileNotFoundError, st)
  end.

(** [subprocess.run(cmd, check=True, ...).stdout] for a command that only
    reads its target. *)
Definition run_query (tool : list string → gmap string file → result string)
    (cmd : list string) : M string := λ st, (tool cmd (files st), st).

(** [extract_chunks_from_png(filename)] *)
Definition extract_chunks_from_png (filename : string) : M (list chunk) :=
  data ← read_file filename;
  lift (extract_chunks_from_bytes data).

(** The names a conversion works with once its input is a PNG file. *)
Record prepared : Type := Prepared {
  p_output_path : string;
  p_original_input_path : string;
  p_temp_png : option string;
  p_datetime_original : string;
  p_temp_file1 : string
}.

(** Lines 125-150. *)
Definition derive_datetime (original_input_path : string) (preserve_date : bool)
  : M string :=
  if preserve_date then
    from_exif ← try_except
      (original_img ← image_open original_input_path;
       mret (pil_exif_datetime_original original_img))
      (λ _, mret None);
    match from_exif with
    | Some datetime_original => mret datetime_original
    | None =>
        try_except
          (t ← getmtime original_input_path; mret (strftime t))
          (λ _, mret (strftime clock))
    end
  else mret (strftime clock).

(** Lines 91-93. *)
Definition default_output_path (input_path : string) (output_path : option string)
  : string :=
  match output_path with
  | Some path => path
  | None => (splitext input_path).1 +:+ "_ios.png"
  end.

(** Lines 91-202: up to the intermediate file [temp_file1]. *)
Definition prepare (batch_mode : bool) (input_path : string)
    (output_path : option string) (preserve_date : bool) : M prepared :=
  let output_path := default_output_path input_path output_path in
  let original_input_path := input_path in
  img ← image_open input_path;
  is_png ← try_except
    (data ← read_file input_path;
     let header := slice_to data 8 in
     mret (bool_decide (slice_to header 8 = PNG_SIGNATURE)))
    (λ _, mret false);
  '(input_path, temp_png) ←
    (if negb is_png then
       print_unless_batch batch_mode "检测到非 PNG 格式，正在转换为 PNG...";;
       let temp_png := output_path +:+ ".temp_png" in
       let img := if negb (pil_is_rgb img) then pil_convert_rgb img else img in
       write_file temp_png (pil_save_png img);;
       print_unless_batch batch_mode ("✅ 已转换为 PNG: " +:+ temp_png);;
       mret (temp_png, Some temp_png)
     else mret (input_path, None));
  datetime_original ← derive_datetime original_input_path preserve_date;
  print_unless_batch batch_mode ("原始日期: " +:+ datetime_original);;
  chunks ← extract_chunks_from_png input_path;
  png_data ← lift (build_base_png (classify chunks));
  let temp_file1 := output_path +:+ ".temp1" in
  write_file temp_file1 png_data;;
  mret (Prepared output_path original_input_path temp_png datetime_original temp_file1).

(** The exiftool command of lines 206-230. *)
Definition metadata_cmd (original_exists : bool)
    (original_input_path datetime_original temp_file1 : string) : list string :=
  ["exiftool"; "-overwrite_original"]
  ++ (if original_exists
      then ["-tagsFromFile"; original_input_path; "-all:all"; "-unsafe"]
      else [])
  ++ ["-ImageDescription=Screenshot";
      "-UserComment=Screenshot";
      "-DateTimeOriginal=" +:+ datetime_original;
      "-ModifyDate=" +:+ datetime_original;
      "-CreateDate=" +:+ datetime_original;
      "-Orientation=1";
      "-XResolution=144";
      "-YResolution=144";
      "-ResolutionUnit=2";
      "-ColorSpace=1";
      temp_file1].

(** [if os.path.exists(path): os.remove(path)] *)
Definition remove_if_exists (path : string) : M unit :=
  there ← path_exists path;
  if (there : bool) then remove path else mret tt.

(** Lines 205-245: [true] when the conversion goes on, [false] when a
    handler has executed [return None]. *)
Definition externalize_metadata (batch_mode : bool) (p : prepared) : M bool :=
  try_except
    (original_exists ← path_exists (p_original_input_path p);
     run_exiftool
       (metadata_cmd original_exists (p_original_input_path p)
          (p_datetime_original p) (p_temp_file1 p))
       (p_temp_file1 p);;
     print_unless_batch batch_mode "✅ exiftool 执行成功";;
     mret true)
    (λ e,
       match e with
       | CalledProcessError stderr =>
           print ("⚠️  exiftool 执行失败: " +:+ stderr);;
           remove_if_exists (p_temp_file1 p);;
           mret false
       | FileNotFoundError =>
           print "⚠️  错误: exiftool 未安装";;
           print "   请安装 exiftool: brew install exiftool (macOS)";;
           remove_if_exists (p_temp_file1 p);;
           mret false
       | _ => raise e
       end).

(** Lines 303-314. *)
Definition verify_description (batch_mode : bool) (output_path : string) : M unit :=
  if negb batch_mode then
    try_except
      (out ← run_query exiftool_print_tag
               ["exiftool"; "-s3"; "-ImageDescription"; output_path];
       if bool_decide (str_strip out = "Screenshot") then
         print ("✅ 转换完成: " +:+ output_path);;
         print "   ✅ Image Description: Screenshot"
       else print "⚠️  警告: Image Description 可能不正确")
      (λ _, mret tt)
  else mret tt.

(** Lines 316-327. *)
Definition verify_chunk_order (batch_mode : bool) (output_path : string) : M unit :=
  if negb batch_mode then
    try_except
      (out ← run_query pngcheck ["pngcheck"; "-v"; output_path];
       print "";;
       print "Chunk 顺序:";;
       foldr (λ line rest, print ("   " +:+ line);; rest) (mret tt)
             (chunk_order_lines out))
      (λ _, mret tt)
  else mret tt.

(** Lines 247-329. *)
Definition reposition_and_finalize (batch_mode preserve_date : bool) (p : prepared)
  : M (option string) :=
  let output_path := p_output_path p in
  png_data ← read_file (p_temp_file1 p);
  temp_chunks ← extract_chunks_from_png (p_temp_file1 p);
  png_data ← lift (insert_missing_chunks png_data temp_chunks);
  write_file output_path png_data;;
  remove_if_exists (p_temp_file1 p);;
  match p_temp_png p with
  | Some temp_png =>
      if bool_decide (temp_png ≠ "") then remove_if_exists temp_png else mret tt
  | None => mret tt
  end;;
  (if preserve_date then
     try_except
       (t ← getmtime (p_original_input_path p); utime output_path t)
       (λ _, mret tt)
   else mret tt);;
  try_except
    (run_exiftool
       ["exiftool"; "-Orientation=1"; "-n"; "-overwrite_original"; output_path]
       output_path)
    (λ _, mret tt);;
  verify_description batch_mode output_path;;
  verify_chunk_order batch_mode output_path;;
  mret (Some output_path).

Definition convert_android_to_ios (batch_mode : bool) (input_path : string)
    (output_path : option string) (preserve_date : bool) : M (option string) :=
  p ← prepare batch_mode input_path output_path preserve_date;
  go_on ← externalize_metadata batch_mode p;
  if (go_on : bool) then reposition_and_finalize batch_mode preserve_date p
  else mret None.

End Orchestrator.

(** ** get_image_files and process_directory *)

(** The path functions and the directory walk of the standard library. *)
Class PathLib : Type := {
  os_isdir : string → gmap string file → bool;     (* os.path.isdir *)
  os_walk : string → gmap string file → list (string * list string);
    (* os.walk: each directory visited with the names of its files *)
  os_makedirs : string → gmap string file → result unit;
    (* os.makedirs(exist_ok=True): raises where the directory cannot be made *)
  path_join : string → string → string;            (* os.path.join *)
  basename : string → string;                      (* os.path.basename *)
  str_lower : string → string;                     (* str.lower *)
  str_of_exn : exn → string                        (* str(e) *)
}.

Section Batch.

Context `{Collaborators} `{PathLib}.

Definition image_extensions : list string :=
  [".png"; ".jpg"; ".jpeg"; ".PNG"; ".JPG"; ".JPEG"].

(** Lines 337-341: the paths collected before they are sorted. *)
Definition collect_image_files (directory : string) (fs : gmap string file)
  : list string :=
  flat_map
    (λ visit : string * list string,
       path_join visit.1
         <$> filter (λ file, (splitext file).2 ∈ image_extensions) visit.2)
    (os_walk directory fs).

Definition get_image_files (directory : string) : M (list string) := λ st,
  (Ok (merge_sort String.le (collect_image_files directory (files st))), st).

(** Lines 384-389: the output name of an input before duplicates are
    looked at. *)
Definition output_filename_for (base_name : string) : string :=
  let '(base, ext) := splitext base_name in
  if bool_decide (str_lower ext ∈ [".jpg"; ".jpeg"]) then base +:+ ".png"
  else base_name.

(** [f"{base_name_part}_{n}{ext_part}"] of line 395. *)
Definition numbered (output_filename : string) (n : nat) : string :=
  let '(base_name_part, ext_part) := splitext output_filename in
  base_name_part +:+ "_" +:+ pretty n +:+ ext_part.

(** Lines 392-397 on the dictionary [used_filenames]. *)
Definition claim_filename (used_filenames : gmap string nat) (output_filename : string)
  : string * gmap string nat :=
  match used_filenames !! output_filename with
  | Some n =>
      let used_filenames := <[output_filename := n + 1]> used_filenames in
      (numbered output_filename (n + 1), used_filenames)
  | None => (output_filename, <[output_filename := 0]> used_filenames)
  end%nat.

Record batch_state : Type := BatchState {
  success_count : nat;
  fail_count : nat;
  used_filenames : gmap string nat
}.

(** [if result:] on what a conversion returns. *)
Definition truthy (result : option string) : bool :=
  match result with
  | Some path => bool_decide (path ≠ "")
  | None => false
  end.

(** One iteration of the loop of lines 377-412; [i] counts from 1. *)
Definition process_file (output_dir : string) (preserve_date : bool) (total : nat)
    (acc : batch_state) (i : nat) (image_file : string) : M batch_state :=
  print ("[" +:+ pretty i +:+ "/" +:+ pretty total +:+ "] 处理: "
         +:+ basename image_file);;
  let base_name := basename image_file in
  let output_filename := output_filename_for base_name in
  let '(output_filename, used) := claim_filename (used_filenames acc) output_filename in
  let output_file := path_join output_dir output_filename in
  try_except
    (result ← convert_android_to_ios true image_file (Some output_file) preserve_date;
     if truthy result then
       print ("   ✅ 完成 -> " +:+ output_filename);; print "";;
       mret (BatchState (success_count acc + 1)%nat (fail_count acc) used)
     else
       print "   ❌ 失败";; print "";;
       mret (BatchState (success_count acc) (fail_count acc + 1)%nat used))
    (λ e,
       print ("   ❌ 错误: " +:+ str_of_exn e);; print "";;
       mret (BatchState (success_count acc) (fail_count acc + 1)%nat used)).

Fixpoint process_files (output_dir : string) (preserve_date : bool) (total : nat)
    (acc : batch_state) (i : nat) (image_files : list string) : M batch_state :=
  match image_files with
  | [] => mret acc
  | image_file :: rest =>
      acc ← process_file output_dir preserve_date total acc i image_file;
      process_files output_dir preserve_date total acc (S i) rest
  end.

(** Lines 346-420. The batch-mode flag is set before the loop and deleted
    after it, so every conversion of the loop runs with it; a line that ends
    in a newline is followed by an empty line. *)
Definition process_directory (directory : string) (output_dir : option string)
    (preserve_date : bool) : M unit :=
  λ st,
  if negb (os_isdir directory (files st)) then
    print ("错误: " +:+ directory +:+ " 不是一个有效的目录") st
  else
    (image_files ← get_image_files directory;
     match image_files with
     | [] => print ("在目录 " +:+ directory +:+ " 中未找到图片文件")
     | _ :: _ =>
         let output_dir :=
           match output_dir with
           | Some dir => dir
           | None => path_join directory "ios_output"
           end in
         lift (os_makedirs output_dir (files st));;
         print ("输出目录: " +:+ output_dir);; print "";;
         print ("找到 " +:+ pretty (length image_files) +:+ " 个图片文件，开始处理...");;
         print "";;
         acc ← process_files output_dir preserve_date (length image_files)
                 (BatchState 0 0 ∅) 1 image_files;
         print "==================================================";;
         print ("处理完成！成功: " +:+ pretty (success_count acc) +:+ ", 失败: "
                +:+ pretty (fail_count acc));;
         print ("输出目录: " +:+ output_dir)
     end) st.

End Batch.

(** The output names the loop gives to a list of preliminary names, and the
    dictionary it ends with. *)
Fixpoint claim_all `{Collaborators} (used : gmap string nat) (names : list string)
  : list string * gmap string nat :=
  match names with
  | [] => ([], used)
  | name :: rest =>
      let '(out, used) := claim_filename used name in
      let '(outs, used) := claim_all used rest in
      (out :: outs, used)
  end.

(** How often [name] occurs in [names]. *)
Definition occurrences (name : string) (names : list string) : nat :=
  length (filter (λ x, x = name) names).

(** ** Vocabulary of the specification *)

(** The four bytes of a 32-bit field, most significant first. *)
Definition be32 (n : Z) : bytes :=
  [byte_of_Z (Z.shiftr n 24); byte_of_Z (Z.shiftr n 16);
   byte_of_Z (Z.shiftr n 8); byte_of_Z n].

(** [length ++ type ++ payload ++ crc], as the PNG format lays a chunk out. *)
Definition frame (chunk_type data : bytes) : bytes :=
  be32 (Z.of_nat (length data)) ++ chunk_type ++ data
  ++ be32 (crc32 (chunk_type ++ data)).

(** The bytes of a sequence of chunks, each as its framed record. *)
Definition frames (chunks : list chunk) : bytes :=
  flat_map (λ c, frame c.1 c.2) chunks.

(** A chunk that can be framed: a 4-byte type and a payload whose length
    fits the 32-bit length field. *)
Definition wf_chunk (c : chunk) : Prop :=
  length c.1 = 4%nat ∧ Z.of_nat (length c.2) < 2 ^ 32.

(** A PNG file with the chunks [chunks] before its terminal chunk. *)
Definition png_file (chunks : list chunk) : bytes :=
  PNG_SIGNATURE ++ frames chunks ++ frame (b "IEND") [].

(** The chunks of a sequence that have a given type, in their order. *)
Definition chunks_of_type (ty : bytes) (chunks : list chunk) : list chunk :=
  filter (λ c, c.1 = ty) chunks.

(** The "other" class: every type the orchestrator does not manage itself. *)
Definition is_other (c : chunk) : Prop :=
  c.1 ∉ [b "IHDR"; b "sRGB"; b "IDAT"; b "IEND"; b "eXIf"; b "pHYs"; b "sBIT"].

#[global] Instance is_other_dec (c : chunk) : Decision (is_other c).
Proof. unfold is_other. apply _. Defined.

(** A chunk sequence with [new] put immediately after its first chunk of
    type [anchor], or at its end when it has none. *)
Fixpoint insert_after_first (anchor : bytes) (new : chunk) (chunks : list chunk)
  : list chunk :=
  match chunks with
  | [] => [new]
  | c :: rest =>
      if decide (c.1 = anchor) then c :: new :: rest
      else c :: insert_after_first anchor new rest
  end.

(** The slot of a type that the classifier keeps one chunk of: a later chunk
    of the type replaces an earlier one. *)
Definition slot_of_type (ty : bytes) (chunks : list chunk) : option chunk :=
  last (chunks_of_type ty chunks).

(** The payloads the orchestrator synthesizes: pHYs 5669 x 5669 pixels per
    metre, and sBIT 8, 8, 8. *)
Definition default_phys : bytes := be32 5669 ++ be32 5669 ++ [Byte.x01].
Definition default_sbit : bytes := [Byte.x08; Byte.x08; Byte.x08].

(** The chunk sequence after the insertions of lines 251-274. *)
Definition reposition_chunks (cs : list chunk) : list chunk :=
  let cs1 :=
    if bool_decide (b "pHYs" ∈ cs.*1) then cs
    else insert_after_first (b "eXIf") (b "pHYs", default_phys) cs in
  if bool_decide (b "sBIT" ∈ cs.*1) then cs1
  else insert_after_first (b "pHYs") (b "sBIT", default_sbit) cs1.

(** ** Assertions about computations of the orchestrator *)

(** [quiet m]: running [m] leaves every file as it is. *)
Definition quiet {A} (m : M A) : Prop := ∀ st, files (m st).2 = files st.

(** [triple P m Q]: from files satisfying [P], a run of [m] that returns [a]
    ends with files satisfying [Q a]. *)
Definition triple {A} (P : gmap string file → Prop) (m : M A)
    (Q : A → gmap string file → Prop) : Prop :=
  ∀ st a st', P (files st) → m st = (Ok a, st') → Q a (files st').

(** [preserves path m]: running [m] leaves the file at [path] as it is. *)
Definition preserves {A} (path : string) (m : M A) : Prop :=
  ∀ st, files (m st).2 !! path = files st !! path.

(** [keeps P m]: if the files satisfy [P] before [m] runs, they satisfy it
    afterwards, whether [m] returns or raises. *)
Definition keeps {A} (P : gmap string file → Prop) (m : M A) : Prop :=
  ∀ st, P (files st) → P (files (m st).2).

(** [agree m1 m2]: from states with the same files, [m1] and [m2] give the
    same result and end with the same files. *)
Definition agree {A} (m1 m2 : M A) : Prop :=
  ∀ st1 st2, files st1 = files st2 →
    (m1 st1).1 = (m2 st2).1 ∧ files (m1 st1).2 = files (m2 st2).2.

(** A chunk of type IEND occurs in a sequence at its last position only. *)
Definition terminal_only_last (chunks : list chunk) : Prop :=
  ∀ (k : nat) (c : chunk),
    chunks !! k = Some c → c.1 = b "IEND" → S k = length chunks.

(** The chunk sequence the rebuild of lines 175-197 writes before the
    terminal chunk, from the chunks parsed. *)
Definition rebuilt_chunks (chunks : list chunk) : list chunk :=
  option_list (slot_of_type (b "IHDR") chunks)
  ++ [default (b "sRGB", [Byte.x00]) (slot_of_type (b "sRGB") chunks)]
  ++ filter is_other chunks
  ++ chunks_of_type (b "IDAT") chunks.

(** ** Example inputs *)

(** The header payload of a 1x1 RGB image with 8 bits per channel. *)
Definition example_ihdr_data : bytes :=
  be32 1 ++ be32 1 ++ [Byte.x08; Byte.x02; Byte.x00; Byte.x00; Byte.x00].

Definition example_idat_data : bytes := b "pixels".

(** IHDR, tEXt, IDAT: a minimal screenshot with one ancillary chunk. *)
Definition example_chunks : list chunk :=
  [(b "IHDR", example_ihdr_data); (b "tEXt", b "Software"); (b "IDAT", example_idat_data)].

(** A screenshot that carries a pHYs chunk of its own and no sRGB chunk. *)
Definition example_chunks_with_phys : list chunk :=
  [(b "IHDR", example_ihdr_data); (b "pHYs", be32 2835 ++ be32 2835 ++ [Byte.x01]);
   (b "tEXt", b "Software"); (b "IDAT", example_idat_data)].

(** The same after the metadata tool and a first pass of the inserter. *)
Definition example_converted_chunks : list chunk :=
  [(b "IHDR", example_ihdr_data); (b "sRGB", [Byte.x00]); (b "eXIf", b "exif");
   (b "pHYs", be32 5669 ++ be32 5669 ++ [Byte.x01]);
   (b "sBIT", [Byte.x08; Byte.x08; Byte.x08]); (b "IDAT", example_idat_data)].

(** A machine without exiftool, with an image library that decodes any
    file and re-encodes it as a one-pixel PNG. *)
Definition machine_without_exiftool : Collaborators := {|
  image := bytes;
  splitext := λ path, (path, "");
  pil_open := λ data, Some data;
  pil_is_rgb := λ _, true;
  pil_convert_rgb := λ img, img;
  pil_save_png := λ _, png_file [(b "IHDR", example_ihdr_data);
                                 (b "IDAT", example_idat_data)];
  pil_exif_datetime_original := λ _, None;
  strftime := λ _, "2024:01:01 00:00:00";
  clock := 0;
  exiftool := λ _ _, ToolMissing;
  exiftool_print_tag := λ _ _, Raise FileNotFoundError;
  pngcheck := λ _ _, Raise FileNotFoundError;
  str_strip := λ line, line;
  chunk_order_lines := λ _, []
|}.

(** An exiftool that puts an eXIf chunk after the sRGB chunk of its target,
    the last word of the command, unless the target has one already. *)
Definition example_exiftool (cmd : list string) (fs : gmap string file)
  : tool_outcome :=
  match last cmd ≫= (λ target, fs !! target) with
  | Some f =>
      match extract_chunks_from_bytes (content f) with
      | Ok chunks =>
          if has_chunk (b "eXIf") chunks then ToolOk (content f)
          else match insert_chunk_after (content f) (b "sRGB") (b "eXIf") (b "exif") with
               | Ok data => ToolOk data
               | Raise _ => ToolFailed "Error: cannot write" (Some (content f))
               end
      | Raise _ => ToolFailed "Error: not a PNG" (Some (content f))
      end
  | None => ToolFailed "Error: File not found" None
  end.

(** The same machine with an exiftool that succeeds. *)
Definition machine_with_exiftool : Collaborators := {|
  image := bytes;
  splitext := λ path, (path, "");
  pil_open := λ data, Some data;
  pil_is_rgb := λ _, true;
  pil_convert_rgb := λ img, img;
  pil_save_png := λ _, png_file [(b "IHDR", example_ihdr_data);
                                 (b "IDAT", example_idat_data)];
  pil_exif_datetime_original := λ _, None;
  strftime := λ _, "2024:01:01 00:00:00";
  clock := 0;
  exiftool := example_exiftool;
  exiftool_print_tag := λ _ _, Ok "Screenshot";
  pngcheck := λ _ _, Raise FileNotFoundError;
  str_strip := λ line, line;
  chunk_order_lines := λ _, []
|}.

(** A directory holding one JPEG screenshot. *)
Definition jpeg_only : state :=
  State {[ "shot.jpg" := File (b "JFIF") 0 ]} [].

(** [os.path.splitext] on a file name: the split at the last dot, unless
    that dot is the first character. *)
Fixpoint split_last_dot (s : string) : option (string * string) :=
  match s with
  | EmptyString => None
  | String c rest =>
      match split_last_dot rest with
      | Some (base, ext) => Some (String c base, ext)
      | None => if bool_decide (String c EmptyString = ".") then Some (EmptyString, s) else None
      end
  end.

Definition example_splitext (path : string) : string * string :=
  match split_last_dot path with
  | Some (String c base, ext) => (String c base, ext)
  | _ => (path, EmptyString)
  end.

(** The machine with exiftool and that [splitext]. *)
Definition machine_with_splitext : Collaborators := {|
  image := bytes;
  splitext := example_splitext;
  pil_open := λ data, Some data;
  pil_is_rgb := λ _, true;
  pil_convert_rgb := λ img, img;
  pil_save_png := λ _, png_file [(b "IHDR", example_ihdr_data);
                                 (b "IDAT", example_idat_data)];
  pil_exif_datetime_original := λ _, None;
  strftime := λ _, "2024:01:01 00:00:00";
  clock := 0;
  exiftool := example_exiftool;
  exiftool_print_tag := λ _ _, Ok "Screenshot";
  pngcheck := λ _ _, Raise FileNotFoundError;
  str_strip := λ line, line;
  chunk_order_lines := λ _, []
|}.

(** What follows the last slash of a path. *)
Fixpoint after_last_slash (path : string) : string :=
  match path with
  | EmptyString => EmptyString
  | String c rest =>
      if bool_decide (String.index 0 "/" rest = None)
      then if bool_decide (String c EmptyString = "/") then rest else path
      else after_last_slash rest
  end.

(** A directory [shots] with two screenshots, a text file and a
    subdirectory holding a third screenshot; no directory can be made at
    the empty path. *)
Definition example_paths : PathLib := {|
  os_isdir := λ directory _, bool_decide (directory = "shots");
  os_walk := λ directory _,
    [(directory, ["b.jpg"; "a.png"; "notes.txt"]); (directory +:+ "/old", ["a.png"])];
  os_makedirs := λ dir _, if bool_decide (dir = "") then Raise FileNotFoundError else Ok tt;
  path_join := λ a c, a +:+ "/" +:+ c;
  basename := after_last_slash;
  str_lower := λ s, s;
  str_of_exn := λ _, "error"
|}.

Definition example_shots : state :=
  State {[ "shots/a.png" := File (png_file example_chunks) 7;
           "shots/b.jpg" := File (b "JFIF") 8;
           "shots/notes.txt" := File (b "notes") 9;
           "shots/old/a.png" := File (png_file example_chunks) 5 ]} [].

(** * Properties *)

(** ** Bytes and 32-bit fields *)

Lemma byte_val_range (x : byte) : 0 <= byte_val x < 256.
Proof.
  unfold byte_val. pose proof (Byte.to_N_bounded x) as H. lia.
Qed.

Lemma byte_val_of_Z (z : Z) : byte_val (byte_of_Z z) = z mod 256.
Proof.
  unfold byte_val, byte_of_Z.
  assert (Hr : 0 <= z mod 256 < 256) by (apply Z.mod_pos_bound; lia).
  destruct (Byte.of_N (Z.to_N (z mod 256))) as [x|] eqn:E; simpl.
  - apply Byte.to_of_N in E. rewrite E. lia.
  - apply Byte.of_N_None_iff in E. lia.
Qed.

Lemma byte_of_Z_val (x : byte) : byte_of_Z (byte_val x) = x.
Proof.
  unfold byte_of_Z, byte_val.
  pose proof (Byte.to_N_bounded x) as H.
  rewrite Z.mod_small by lia. rewrite N2Z.id, Byte.of_to_N. reflexivity.
Qed.

Lemma pack_be32_in_range (n : Z) : 0 <= n < 2 ^ 32 → pack_be32 n = Ok (be32 n).
Proof.
  intros [H0 H1]. unfold pack_be32.
  apply Z.leb_le in H0. apply Z.ltb_lt in H1. rewrite H0, H1. reflexivity.
Qed.

Lemma pack_be32_out_of_range (n : Z) :
  n < 0 ∨ 2 ^ 32 <= n → pack_be32 n = Raise StructError.
Proof.
  intros H. unfold pack_be32.
  destruct (0 <=? n) eqn:E0; destruct (n <? 2 ^ 32) eqn:E1; simpl; try reflexivity.
  apply Z.leb_le in E0. apply Z.ltb_lt in E1. lia.
Qed.

Lemma testbit_mod_256 (z k : Z) :
  0 <= k → Z.testbit (z mod 256) k = if k <? 8 then Z.testbit z k else false.
Proof.
  intros Hk. change 256 with (2 ^ 8).
  destruct (k <? 8) eqn:E.
  - apply Z.ltb_lt in E. apply Z.mod_pow2_bits_low. lia.
  - apply Z.ltb_ge in E. apply Z.mod_pow2_bits_high. lia.
Qed.

Lemma testbit_byte_field (n s k : Z) :
  0 <= s → 0 <= k →
  Z.testbit (Z.shiftl (Z.shiftr n s mod 256) s) k
  = if (s <=? k) && (k <? s + 8) then Z.testbit n k else false.
Proof.
  intros Hs Hk. rewrite Z.shiftl_spec by lia.
  destruct (Z.leb_spec s k) as [L|G]; simpl.
  - rewrite testbit_mod_256 by lia.
    destruct (Z.ltb_spec (k - s) 8), (Z.ltb_spec k (s + 8)); try lia; try reflexivity.
    rewrite Z.shiftr_spec by lia. f_equal. lia.
  - apply Z.testbit_neg_r. lia.
Qed.

Lemma testbit_above_32 (n k : Z) : 0 <= n < 2 ^ 32 → 32 <= k → Z.testbit n k = false.
Proof.
  intros Hn Hk. rewrite <- (Z.mod_small n (2 ^ 32)) by lia.
  apply Z.mod_pow2_bits_high. lia.
Qed.

Lemma unpack_be32_be32 (n : Z) : 0 <= n < 2 ^ 32 → unpack_be32 (be32 n) = Ok n.
Proof.
  intros Hn. unfold unpack_be32, be32. f_equal.
  rewrite !byte_val_of_Z.
  apply Z.bits_inj'. intros k Hk.
  rewrite !Z.lor_spec, !testbit_byte_field, testbit_mod_256 by lia.
  destruct (Z.ltb_spec k 8); destruct (Z.leb_spec 8 k); destruct (Z.ltb_spec k (8 + 8));
    destruct (Z.leb_spec 16 k); destruct (Z.ltb_spec k (16 + 8));
    destruct (Z.leb_spec 24 k); destruct (Z.ltb_spec k (24 + 8));
    simpl; try lia;
    rewrite ?orb_false_r; try reflexivity.
  symmetry. apply testbit_above_32; lia.
Qed.

Lemma be32_length (n : Z) : length (be32 n) = 4%nat.
Proof. reflexivity. Qed.

(** ** CRC-32 stays within 32 bits *)

Lemma lxor_below_32 (x y : Z) :
  0 <= x < 2 ^ 32 → 0 <= y < 2 ^ 32 → 0 <= Z.lxor x y < 2 ^ 32.
Proof.
  intros Hx Hy.
  assert (H0 : 0 <= Z.lxor x y) by (apply Z.lxor_nonneg; lia).
  split; [exact H0|].
  destruct (Z.eq_dec (Z.lxor x y) 0) as [->|Hne]; [lia|].
  apply Z.log2_lt_pow2; [lia|].
  pose proof (Z.log2_lxor x y ltac:(lia) ltac:(lia)) as Hl.
  assert (Lx : Z.log2 x < 32).
  { destruct (Z.eq_dec x 0) as [->|]; [reflexivity|]. apply Z.log2_lt_pow2; lia. }
  assert (Ly : Z.log2 y < 32).
  { destruct (Z.eq_dec y 0) as [->|]; [reflexivity|]. apply Z.log2_lt_pow2; lia. }
  lia.
Qed.

Lemma shiftr1_below_32 (x : Z) : 0 <= x < 2 ^ 32 → 0 <= Z.shiftr x 1 < 2 ^ 32.
Proof.
  intros Hx. rewrite Z.shiftr_div_pow2 by lia. change (2 ^ 1) with 2.
  split; [apply Z.div_pos; lia|].
  apply Z.div_lt_upper_bound; lia.
Qed.

Lemma crc32_bit_range (crc : Z) : 0 <= crc < 2 ^ 32 → 0 <= crc32_bit crc < 2 ^ 32.
Proof.
  intros H. unfold crc32_bit. pose proof (shiftr1_below_32 crc H).
  destruct (Z.testbit crc 0); [apply lxor_below_32|]; lia.
Qed.

Lemma crc32_byte_range (crc : Z) (x : byte) :
  0 <= crc < 2 ^ 32 → 0 <= crc32_byte crc x < 2 ^ 32.
Proof.
  intros H. unfold crc32_byte.
  assert (H0 : 0 <= Z.lxor crc (byte_val x) < 2 ^ 32).
  { apply lxor_below_32; [exact H|]. pose proof (byte_val_range x). lia. }
  generalize dependent (Z.lxor crc (byte_val x)). intros z Hz.
  simpl. do 8 apply crc32_bit_range. exact Hz.
Qed.

Lemma crc32_range (data : bytes) : 0 <= crc32 data < 2 ^ 32.
Proof.
  unfold crc32. apply lxor_below_32; [|lia].
  assert (H : 0 <= 0xFFFFFFFF < 2 ^ 32) by lia.
  revert H. generalize 0xFFFFFFFF.
  induction data as [|x data IH]; intros crc H; simpl; [exact H|].
  apply IH, crc32_byte_range, H.
Qed.

Lemma crc32_masked (data : bytes) : Z.land (crc32 data) 0xffffffff = crc32 data.
Proof.
  change 0xffffffff with (Z.ones 32).
  rewrite Z.land_ones by lia. apply Z.mod_small, crc32_range.
Qed.

Lemma create_png_chunk_frame (chunk_type data : bytes) :
  Z.of_nat (length data) < 2 ^ 32 →
  create_png_chunk chunk_type data = Ok (frame chunk_type data).
Proof.
  intros H. unfold create_png_chunk, frame.
  rewrite crc32_masked.
  rewrite (pack_be32_in_range (Z.of_nat (length data))) by lia.
  rewrite (pack_be32_in_range (crc32 _)) by apply crc32_range.
  reflexivity.
Qed.

Lemma frame_length (chunk_type data : bytes) :
  length (frame chunk_type data) = (8 + length chunk_type + length data)%nat.
Proof.
  unfold frame. rewrite !length_app, !be32_length. lia.
Qed.

(** ** Slices of a buffer laid out as [pre ++ x ++ post] *)

Lemma clamp_index_inside (n i : Z) : 0 <= i <= n → clamp_index n i = i.
Proof.
  intros H. unfold clamp_index.
  destruct (Z.ltb_spec i 0); lia.
Qed.

Lemma slice_middle (pre x post : bytes) (lo hi : Z) :
  lo = Z.of_nat (length pre) → hi = lo + Z.of_nat (length x) →
  slice (pre ++ x ++ post) lo hi = x.
Proof.
  intros -> ->. unfold slice. rewrite !length_app.
  rewrite !clamp_index_inside by lia.
  replace (Z.to_nat (_ + _ - _)) with (length x) by lia.
  rewrite Nat2Z.id, drop_app_length. apply take_app_length.
Qed.

Lemma slice_to_prefix (pre post : bytes) (hi : Z) :
  hi = Z.of_nat (length pre) → slice_to (pre ++ post) hi = pre.
Proof.
  intros ->. unfold slice_to. rewrite length_app.
  rewrite clamp_index_inside by lia.
  rewrite Nat2Z.id. apply take_app_length.
Qed.

Lemma slice_from_suffix (pre post : bytes) (lo : Z) :
  lo = Z.of_nat (length pre) → slice_from (pre ++ post) lo = post.
Proof.
  intros ->. unfold slice_from. rewrite length_app.
  rewrite clamp_index_inside by lia.
  rewrite Nat2Z.id. apply drop_app_length.
Qed.

(** Python never fails on a slice: it is the part of the range that lies
    within the buffer. *)
Lemma slice_length_inside (data : bytes) (lo hi : Z) :
  0 <= lo <= hi → hi <= Z.of_nat (length data) →
  Z.of_nat (length (slice data lo hi)) = hi - lo.
Proof.
  intros H1 H2. unfold slice.
  rewrite !clamp_index_inside by lia.
  rewrite length_take, length_drop. lia.
Qed.

(** ** Reading one framed record *)

Section FrameRead.
Variables (pre chunk_type chunk_data rest : bytes).
Hypothesis type_length : length chunk_type = 4%nat.

Local Abbreviation data := (pre ++ frame chunk_type chunk_data ++ rest).
Local Abbreviation i := (Z.of_nat (length pre)).

Lemma frame_read_length :
    slice data i (i + 4) = be32 (Z.of_nat (length chunk_data)).
  Proof.
    unfold frame. rewrite <- !(app_assoc (be32 _)).
    apply slice_middle; [reflexivity|]. rewrite be32_length. lia.
  Qed.

Lemma frame_read_type : slice data (i + 4) (i + 8) = chunk_type.
  Proof.
    unfold frame.
    rewrite <- !(app_assoc (be32 _)), (app_assoc pre), <- !(app_assoc chunk_type).
    apply slice_middle; [rewrite length_app, be32_length; lia|]. lia.
  Qed.

Lemma frame_read_data :
    slice data (i + 8) (i + 8 + Z.of_nat (length chunk_data)) = chunk_data.
  Proof.
    unfold frame.
    rewrite <- !(app_assoc (be32 _)), <- !(app_assoc chunk_type), (app_assoc pre),
      (app_assoc (pre ++ _)), <- !(app_assoc chunk_data).
    apply slice_middle; [rewrite !length_app, be32_length; lia|]. lia.
  Qed.

Lemma frame_read_end :
    i + (12 + Z.of_nat (length chunk_data))
    = Z.of_nat (length (pre ++ frame chunk_type chunk_data)).
  Proof.
    rewrite length_app, frame_length. lia.
  Qed.

Lemma frame_read_size :
    Z.of_nat (length chunk_data) < 2 ^ 32 →
    unpack_be32 (slice data i (i + 4)) = Ok (Z.of_nat (length chunk_data)).
  Proof.
    intros H. rewrite frame_read_length. apply unpack_be32_be32. lia.
  Qed.
End FrameRead.

(** ** Chunk streams *)

Lemma frames_app (xs ys : list chunk) : frames (xs ++ ys) = frames xs ++ frames ys.
Proof. unfold frames. apply flat_map_app. Qed.

Lemma frames_cons (c : chunk) (cs : list chunk) :
  frames (c :: cs) = frame c.1 c.2 ++ frames cs.
Proof. reflexivity. Qed.

(** ** The parser on a chunk stream *)

Lemma extract_loop_unfold (fuel : nat) (data : bytes) (i : Z) (chunks : list chunk) :
  extract_loop (S fuel) data i chunks
  = if i <? Z.of_nat (length data) - 12 then
      size ← unpack_be32 (slice data i (i + 4));
      let chunk_type := slice data (i + 4) (i + 8) in
      let chunk_data := slice data (i + 8) (i + 8 + size) in
      if decide (chunk_type = b "IEND") then Ok (chunks ++ [(chunk_type, chunk_data)])
      else extract_loop fuel data (i + (12 + size)) (chunks ++ [(chunk_type, chunk_data)])
    else Ok chunks.
Proof. reflexivity. Qed.

Lemma extract_loop_step (fuel : nat) (pre rest : bytes) (c : chunk) (acc : list chunk) :
  wf_chunk c → (0 < length c.2 + length rest)%nat →
  extract_loop (S fuel) (pre ++ frame c.1 c.2 ++ rest) (Z.of_nat (length pre)) acc
  = if decide (c.1 = b "IEND") then Ok (acc ++ [c])
    else extract_loop fuel (pre ++ frame c.1 c.2 ++ rest)
           (Z.of_nat (length (pre ++ frame c.1 c.2))) (acc ++ [c]).
Proof.
  destruct c as [t d]. unfold wf_chunk. cbn [fst snd]. intros [Ht Hd] Hrest.
  assert (Hlt : (Z.of_nat (length pre)
                 <? Z.of_nat (length (pre ++ frame t d ++ rest)) - 12) = true).
  { apply Z.ltb_lt. rewrite !length_app, frame_length. lia. }
  rewrite extract_loop_unfold, Hlt.
  rewrite frame_read_size by assumption. unfold mbind, result_bind.
  rewrite frame_read_type, frame_read_data by assumption.
  rewrite (frame_read_end pre t d).
  all: first [reflexivity | assumption].
Qed.

Lemma frames_length_ge (cs : list chunk) : (length cs <= length (frames cs))%nat.
Proof.
  induction cs as [|c cs IH]; [reflexivity|].
  rewrite frames_cons, length_app, frame_length. simpl. lia.
Qed.

(** The loop walks over a run of well-formed chunks none of which is IEND,
    as long as something follows the run. *)
Lemma extract_loop_frames (cs : list chunk) :
  ∀ (fuel : nat) (pre rest : bytes) (acc : list chunk),
    Forall wf_chunk cs → Forall (λ c, c.1 ≠ b "IEND") cs → (0 < length rest)%nat →
    extract_loop (length cs + fuel) (pre ++ frames cs ++ rest) (Z.of_nat (length pre)) acc
    = extract_loop fuel (pre ++ frames cs ++ rest)
        (Z.of_nat (length (pre ++ frames cs))) (acc ++ cs).
Proof.
  induction cs as [|c cs IH]; intros fuel pre rest acc Hwf Hne Hrest.
  - simpl. rewrite !app_nil_r. reflexivity.
  - apply Forall_cons in Hwf as [Hc Hwf]. apply Forall_cons in Hne as [Hn Hne].
    rewrite frames_cons, <- (app_assoc (frame _ _)).
    change (length (c :: cs) + fuel)%nat with (S (length cs + fuel)).
    rewrite extract_loop_step; [|exact Hc|rewrite length_app; lia].
    destruct (decide (c.1 = b "IEND")) as [E|_]; [contradiction|].
    rewrite !(app_assoc pre (frame _ _)).
    rewrite IH by assumption.
    rewrite <- (app_assoc acc [c] cs). reflexivity.
Qed.

Lemma extract_loop_stop (fuel : nat) (pre : bytes) (acc : list chunk) :
  extract_loop fuel (pre ++ frame (b "IEND") []) (Z.of_nat (length pre)) acc = Ok acc.
Proof.
  assert (H : (Z.of_nat (length pre)
               <? Z.of_nat (length (pre ++ frame (b "IEND") [])) - 12) = false).
  { apply Z.ltb_ge. rewrite length_app, frame_length. simpl. lia. }
  destruct fuel; simpl; rewrite H; reflexivity.
Qed.

(** What the parser yields on a PNG file followed by [trailing] bytes: the
    chunks before the terminal chunk, and the terminal chunk itself only
    when at least one byte follows it. *)
Lemma extract_chunks_png_file (cs : list chunk) (trailing : bytes) :
  Forall wf_chunk cs → Forall (λ c, c.1 ≠ b "IEND") cs →
  extract_chunks_from_bytes (png_file cs ++ trailing)
  = Ok (cs ++ match trailing with [] => [] | _ => [(b "IEND", [])] end).
Proof.
  intros Hwf Hne. unfold extract_chunks_from_bytes, png_file.
  rewrite <- !app_assoc.
  rewrite (slice_to_prefix PNG_SIGNATURE) by reflexivity.
  destruct (decide (PNG_SIGNATURE = PNG_SIGNATURE)) as [_|N]; [|contradiction].
  set (data := PNG_SIGNATURE ++ frames cs ++ frame (b "IEND") [] ++ trailing).
  assert (Hlen : (length data = length cs + S (length data - length cs - 1))%nat).
  { pose proof (frames_length_ge cs). subst data.
    rewrite !length_app, frame_length. simpl. lia. }
  rewrite Hlen. subst data.
  change 8 with (Z.of_nat (length PNG_SIGNATURE)).
  rewrite extract_loop_frames;
    [|assumption|assumption|rewrite length_app, frame_length; simpl; lia].
  rewrite !app_assoc. rewrite <- (app_assoc _ (frame _ _) trailing).
  destruct trailing as [|x trailing].
  - rewrite !app_nil_r. apply extract_loop_stop.
  - rewrite (extract_loop_step _ _ _ (b "IEND", []));
      [|split; [reflexivity|simpl; lia]|simpl; lia].
    reflexivity.
Qed.

(** ** The loops terminate within their fuel, on every buffer *)

Lemma unpack_be32_four (bs : bytes) :
  length bs = 4%nat → ∃ n, unpack_be32 bs = Ok n ∧ 0 <= n.
Proof.
  intros H. destruct bs as [|b3 [|b2 [|b1 [|b0 [|]]]]]; try discriminate.
  eexists. split; [reflexivity|].
  pose proof (byte_val_range b3). pose proof (byte_val_range b2).
  pose proof (byte_val_range b1). pose proof (byte_val_range b0).
  repeat (apply Z.lor_nonneg; split); try apply Z.shiftl_nonneg; lia.
Qed.

Lemma unpack_be32_slice (data : bytes) (i : Z) :
  0 <= i → i < Z.of_nat (length data) - 12 →
  ∃ n, unpack_be32 (slice data i (i + 4)) = Ok n ∧ 0 <= n.
Proof.
  intros H0 H1. apply unpack_be32_four.
  pose proof (slice_length_inside data i (i + 4)). lia.
Qed.

Lemma extract_loop_total (fuel : nat) :
  ∀ (data : bytes) (i : Z) (acc : list chunk),
    0 <= i → Z.of_nat (length data) - i <= Z.of_nat fuel →
    ∃ cs, extract_loop fuel data i acc = Ok cs.
Proof.
  induction fuel as [|fuel IH]; intros data i acc H0 Hf.
  - simpl. destruct (Z.ltb_spec i (Z.of_nat (length data) - 12)); [lia|eauto].
  - rewrite extract_loop_unfold.
    destruct (Z.ltb_spec i (Z.of_nat (length data) - 12)) as [Hlt|]; [|eauto].
    destruct (unpack_be32_slice data i H0 Hlt) as (n & -> & Hn).
    unfold mbind, result_bind.
    destruct (decide (slice data (i + 4) (i + 8) = b "IEND")); [eauto|].
    apply IH; lia.
Qed.

Lemma extract_chunks_from_bytes_total (data : bytes) :
  extract_chunks_from_bytes data = Raise ValueError
  ∨ ∃ cs, extract_chunks_from_bytes data = Ok cs.
Proof.
  unfold extract_chunks_from_bytes.
  destruct (decide (slice_to data 8 = PNG_SIGNATURE)); [right|left; reflexivity].
  apply extract_loop_total; lia.
Qed.

Lemma find_insert_pos_unfold (fuel : nat) (png_data anchor : bytes) (i : Z) :
  find_insert_pos (S fuel) png_data anchor i
  = if i <? Z.of_nat (length png_data) - 12 then
      size ← unpack_be32 (slice png_data i (i + 4));
      if decide (slice png_data (i + 4) (i + 8) = anchor) then Ok (Some (i + 12 + size))
      else find_insert_pos fuel png_data anchor (i + 12 + size)
    else Ok None.
Proof. reflexivity. Qed.

(** The scan returns; when it reports a position, that is the end of a
    record that starts at least 13 bytes before the end of the buffer. *)
Lemma find_insert_pos_total (fuel : nat) :
  ∀ (png_data anchor : bytes) (i : Z),
    0 <= i → Z.of_nat (length png_data) - i <= Z.of_nat fuel →
    find_insert_pos fuel png_data anchor i = Ok None
    ∨ ∃ (start size : Z),
        find_insert_pos fuel png_data anchor i = Ok (Some (start + 12 + size))
        ∧ i <= start < Z.of_nat (length png_data) - 12
        ∧ unpack_be32 (slice png_data start (start + 4)) = Ok size
        ∧ slice png_data (start + 4) (start + 8) = anchor.
Proof.
  induction fuel as [|fuel IH]; intros png_data anchor i H0 Hf.
  - simpl. destruct (Z.ltb_spec i (Z.of_nat (length png_data) - 12)); [lia|auto].
  - rewrite find_insert_pos_unfold.
    destruct (Z.ltb_spec i (Z.of_nat (length png_data) - 12)) as [Hlt|]; [|auto].
    destruct (unpack_be32_slice png_data i H0 Hlt) as (n & Hu & Hn).
    rewrite Hu. unfold mbind, result_bind.
    destruct (decide (slice png_data (i + 4) (i + 8) = anchor)) as [E|_].
    + right. exists i, n. repeat split; auto; lia.
    + assert (Hi : 0 <= i + 12 + n) by lia.
      assert (Hf' : Z.of_nat (length png_data) - (i + 12 + n) <= Z.of_nat fuel) by lia.
      destruct (IH png_data anchor (i + 12 + n) Hi Hf') as [->|(s & z & -> & Hs & Hr)];
        [auto|].
      right. exists s, z. repeat split; try apply Hr; lia.
Qed.

Lemma insert_chunk_after_total (png_data anchor new_type new_data : bytes) :
  Z.of_nat (length new_data) < 2 ^ 32 →
  ∃ out, insert_chunk_after png_data anchor new_type new_data = Ok out.
Proof.
  intros H. unfold insert_chunk_after.
  rewrite create_png_chunk_frame by exact H.
  destruct (find_insert_pos_total (length png_data) png_data anchor 8
              ltac:(lia) ltac:(lia)) as [->|(s & z & -> & _)]; simpl; eauto.
Qed.

(** ** The anchor scan on a chunk stream *)

Lemma find_insert_pos_step (fuel : nat) (pre rest anchor : bytes) (c : chunk) :
  wf_chunk c → (0 < length c.2 + length rest)%nat →
  find_insert_pos (S fuel) (pre ++ frame c.1 c.2 ++ rest) anchor (Z.of_nat (length pre))
  = if decide (c.1 = anchor)
    then Ok (Some (Z.of_nat (length (pre ++ frame c.1 c.2))))
    else find_insert_pos fuel (pre ++ frame c.1 c.2 ++ rest) anchor
           (Z.of_nat (length (pre ++ frame c.1 c.2))).
Proof.
  destruct c as [t d]. unfold wf_chunk. cbn [fst snd]. intros [Ht Hd] Hrest.
  assert (Hlt : (Z.of_nat (length pre)
                 <? Z.of_nat (length (pre ++ frame t d ++ rest)) - 12) = true).
  { apply Z.ltb_lt. rewrite !length_app, frame_length. lia. }
  rewrite find_insert_pos_unfold, Hlt.
  rewrite frame_read_size by assumption. unfold mbind, result_bind.
  rewrite frame_read_type by assumption.
  rewrite <- (Z.add_assoc _ 12), (frame_read_end pre t d).
  all: first [reflexivity | assumption].
Qed.

Lemma find_insert_pos_frames (cs : list chunk) :
  ∀ (fuel : nat) (pre rest anchor : bytes),
    Forall wf_chunk cs → Forall (λ c, c.1 ≠ anchor) cs → (0 < length rest)%nat →
    find_insert_pos (length cs + fuel) (pre ++ frames cs ++ rest) anchor
      (Z.of_nat (length pre))
    = find_insert_pos fuel (pre ++ frames cs ++ rest) anchor
        (Z.of_nat (length (pre ++ frames cs))).
Proof.
  induction cs as [|c cs IH]; intros fuel pre rest anchor Hwf Hne Hrest.
  - simpl. rewrite !app_nil_r. reflexivity.
  - apply Forall_cons in Hwf as [Hc Hwf]. apply Forall_cons in Hne as [Hn Hne].
    rewrite frames_cons, <- (app_assoc (frame _ _)).
    change (length (c :: cs) + fuel)%nat with (S (length cs + fuel)).
    rewrite find_insert_pos_step; [|exact Hc|rewrite length_app; lia].
    destruct (decide (c.1 = anchor)) as [E|_]; [contradiction|].
    rewrite !(app_assoc pre (frame _ _)).
    rewrite IH by assumption. reflexivity.
Qed.

Lemma find_insert_pos_stop (fuel : nat) (pre last anchor : bytes) :
  length last = 12%nat →
  find_insert_pos fuel (pre ++ last) anchor (Z.of_nat (length pre)) = Ok None.
Proof.
  intros Hl.
  assert (H : (Z.of_nat (length pre) <? Z.of_nat (length (pre ++ last)) - 12) = false).
  { apply Z.ltb_ge. rewrite length_app. lia. }
  destruct fuel; simpl; rewrite H; reflexivity.
Qed.

(** The scan of a PNG file none of whose chunks before the terminal chunk has
    the anchor's type finds nothing, whatever the type of the terminal chunk. *)
Lemma find_insert_pos_absent (cs : list chunk) (anchor : bytes) :
  Forall wf_chunk cs → Forall (λ c, c.1 ≠ anchor) cs →
  find_insert_pos (length (png_file cs)) (png_file cs) anchor 8 = Ok None.
Proof.
  intros Hwf Hne. unfold png_file.
  set (data := PNG_SIGNATURE ++ frames cs ++ frame (b "IEND") []).
  assert (Hlen : (length data = length cs + (length data - length cs))%nat).
  { pose proof (frames_length_ge cs). subst data. rewrite !length_app. lia. }
  rewrite Hlen. subst data.
  change 8 with (Z.of_nat (length PNG_SIGNATURE)).
  rewrite find_insert_pos_frames;
    [|assumption|assumption|rewrite frame_length; simpl; lia].
  rewrite (app_assoc PNG_SIGNATURE).
  apply find_insert_pos_stop. reflexivity.
Qed.

(** The scan stops at the first chunk of the anchor's type. *)
Lemma find_insert_pos_present (before after : list chunk) (anchor payload : bytes) :
  Forall wf_chunk before → wf_chunk (anchor, payload) →
  Forall (λ c, c.1 ≠ anchor) before →
  let data := png_file (before ++ (anchor, payload) :: after) in
  find_insert_pos (length data) data anchor 8
  = Ok (Some (Z.of_nat (length (PNG_SIGNATURE ++ frames before ++ frame anchor payload)))).
Proof.
  intros Hwf Ha Hne data. subst data. unfold png_file.
  rewrite frames_app, frames_cons. cbn [fst snd].
  rewrite <- !app_assoc.
  set (rest := frames after ++ frame (b "IEND") []).
  set (data := PNG_SIGNATURE ++ frames before ++ frame anchor payload ++ rest).
  assert (Hlen : (length data = length before + S (length data - length before - 1))%nat).
  { pose proof (frames_length_ge before). subst data.
    rewrite !length_app, frame_length. lia. }
  rewrite Hlen. subst data.
  change 8 with (Z.of_nat (length PNG_SIGNATURE)).
  rewrite find_insert_pos_frames;
    [|assumption|assumption|rewrite length_app, frame_length; lia].
  rewrite (app_assoc PNG_SIGNATURE (frames before)).
  rewrite (find_insert_pos_step _ _ _ _ (anchor, payload));
    [|exact Ha|subst rest; rewrite length_app, frame_length; simpl; lia].
  cbn [fst snd]. destruct (decide (anchor = anchor)) as [_|N]; [|contradiction].
  rewrite <- !app_assoc. reflexivity.
Qed.

(** ** The inserter on a PNG file *)

Lemma insert_chunk_after_present
    (before after : list chunk) (anchor payload new_type new_data : bytes) :
  Forall wf_chunk before → wf_chunk (anchor, payload) →
  Forall (λ c, c.1 ≠ anchor) before →
  Z.of_nat (length new_data) < 2 ^ 32 →
  insert_chunk_after (png_file (before ++ (anchor, payload) :: after))
    anchor new_type new_data
  = Ok (PNG_SIGNATURE ++ frames before ++ frame anchor payload
        ++ frame new_type new_data ++ frames after ++ frame (b "IEND") []).
Proof.
  intros Hwf Ha Hne Hnew. unfold insert_chunk_after.
  rewrite find_insert_pos_present by assumption.
  unfold mbind, result_bind. rewrite create_png_chunk_frame by exact Hnew.
  unfold png_file. rewrite frames_app, frames_cons. cbn [fst snd].
  rewrite <- !app_assoc.
  rewrite (app_assoc (frames before)), (app_assoc PNG_SIGNATURE).
  rewrite slice_to_prefix, slice_from_suffix by reflexivity.
  rewrite <- !app_assoc. reflexivity.
Qed.

Lemma insert_chunk_after_absent (cs : list chunk) (anchor new_type new_data : bytes) :
  Forall wf_chunk cs → Forall (λ c, c.1 ≠ anchor) cs →
  Z.of_nat (length new_data) < 2 ^ 32 →
  insert_chunk_after (png_file cs) anchor new_type new_data
  = Ok (PNG_SIGNATURE ++ frames cs ++ frame new_type new_data ++ frame (b "IEND") []).
Proof.
  intros Hwf Hne Hnew. unfold insert_chunk_after.
  rewrite find_insert_pos_absent by assumption.
  unfold mbind, result_bind. rewrite create_png_chunk_frame by exact Hnew.
  unfold png_file. rewrite (app_assoc PNG_SIGNATURE).
  rewrite slice_to_prefix, slice_from_suffix
    by (rewrite !length_app, frame_length; simpl; lia).
  rewrite <- !app_assoc. reflexivity.
Qed.

Lemma insert_after_first_absent (anchor : bytes) (new : chunk) (cs : list chunk) :
  Forall (λ c, c.1 ≠ anchor) cs → insert_after_first anchor new cs = cs ++ [new].
Proof.
  induction 1 as [|c cs Hc _ IH]; simpl; [reflexivity|].
  destruct (decide (c.1 = anchor)); [contradiction|]. rewrite IH. reflexivity.
Qed.

Lemma insert_after_first_present (anchor : bytes) (new c : chunk) (before after : list chunk) :
  Forall (λ c, c.1 ≠ anchor) before → c.1 = anchor →
  insert_after_first anchor new (before ++ c :: after) = before ++ c :: new :: after.
Proof.
  intros Hne Hc. induction Hne as [|x before Hx _ IH]; simpl.
  - destruct (decide (c.1 = anchor)); [reflexivity|contradiction].
  - destruct (decide (x.1 = anchor)); [contradiction|]. rewrite IH. reflexivity.
Qed.

(** Every chunk sequence either has no chunk of a type, or splits at the
    first one. *)
Lemma first_of_type_split (anchor : bytes) (cs : list chunk) :
  Forall (λ c, c.1 ≠ anchor) cs
  ∨ ∃ before payload after,
      cs = before ++ (anchor, payload) :: after ∧ Forall (λ c, c.1 ≠ anchor) before.
Proof.
  induction cs as [|[t d] cs IH]; [left; constructor|].
  destruct (decide (t = anchor)) as [->|Hn].
  - right. exists [], d, cs. split; [reflexivity|constructor].
  - destruct IH as [IH|(before & payload & after & -> & Hb)].
    + left. constructor; assumption.
    + right. exists ((t, d) :: before), payload, after.
      split; [reflexivity|]. constructor; assumption.
Qed.

(** On a PNG file the inserter is [insert_after_first] on its chunks. *)
Lemma insert_chunk_after_png_file (cs : list chunk) (anchor new_type new_data : bytes) :
  Forall wf_chunk cs → Z.of_nat (length new_data) < 2 ^ 32 →
  insert_chunk_after (png_file cs) anchor new_type new_data
  = Ok (png_file (insert_after_first anchor (new_type, new_data) cs)).
Proof.
  intros Hwf Hnew.
  destruct (first_of_type_split anchor cs) as [Hne|(before & payload & after & -> & Hne)].
  - rewrite insert_chunk_after_absent, insert_after_first_absent by assumption.
    unfold png_file. rewrite frames_app, frames_cons.
    change (frames []) with (@nil byte). cbn [fst snd].
    rewrite app_nil_r, <- !app_assoc. reflexivity.
  - apply Forall_app in Hwf as [Hb Ha]. apply Forall_cons in Ha as [Ha _].
    rewrite insert_chunk_after_present, insert_after_first_present
      by (assumption || reflexivity).
    unfold png_file. rewrite frames_app, !frames_cons. cbn [fst snd].
    rewrite <- !app_assoc. reflexivity.
Qed.

(** ** Classification *)

(** Settles the comparisons of a known chunk type with the type literals. *)
Ltac refute_type_fact Hx :=
  lazymatch type of Hx with
  | b ?x = b ?y => vm_compute in Hx; discriminate Hx
  | b ?x ≠ b ?x => exact (Hx eq_refl)
  | is_other (b ?x, _) =>
      unfold is_other in Hx; cbn [fst] in Hx;
      rewrite !not_elem_of_cons in Hx; intuition congruence
  end.

Ltac settle_types :=
  repeat match goal with
    | |- context [@decide ?P ?inst] =>
        let Hx := fresh "Hx" in
        destruct (@decide P inst) as [Hx|Hx];
        try (exfalso; refute_type_fact Hx)
    end.

Lemma chunks_of_type_cons (ty : bytes) (c : chunk) (cs : list chunk) :
  chunks_of_type ty (c :: cs)
  = if decide (c.1 = ty) then c :: chunks_of_type ty cs else chunks_of_type ty cs.
Proof. unfold chunks_of_type. rewrite filter_cons. reflexivity. Qed.

Lemma slot_of_type_cons (ty : bytes) (c : chunk) (cs : list chunk) :
  slot_of_type ty (c :: cs)
  = match slot_of_type ty cs with
    | Some later => Some later
    | None => if decide (c.1 = ty) then Some c else None
    end.
Proof.
  unfold slot_of_type. rewrite chunks_of_type_cons.
  destruct (decide (c.1 = ty)).
  - rewrite last_cons. reflexivity.
  - destruct (last (chunks_of_type ty cs)); reflexivity.
Qed.

Lemma classify_fold (cs : list chunk) :
  ∀ st : classified,
    fold_left classify_step cs st
    = Classified
        (match slot_of_type (b "IHDR") cs with Some c => Some c | None => ihdr_chunk st end)
        (match slot_of_type (b "sRGB") cs with Some c => Some c | None => srgb_chunk st end)
        (idat_chunks st ++ chunks_of_type (b "IDAT") cs)
        (other_chunks st ++ filter is_other cs).
Proof.
  induction cs as [|[t d] cs IH]; intros st.
  - destruct st. simpl. rewrite !app_nil_r. reflexivity.
  - cbn [fold_left]. rewrite IH. clear IH.
    rewrite !slot_of_type_cons, chunks_of_type_cons, filter_cons.
    unfold classify_step. cbn [fst].
    destruct (slot_of_type (b "IHDR") cs) as [h|], (slot_of_type (b "sRGB") cs) as [g|];
      (destruct (decide (t = b "IHDR")) as [->|N1];
       [|destruct (decide (t = b "sRGB")) as [->|N2];
         [|destruct (decide (t = b "IDAT")) as [->|N3]]]);
      settle_types; cbn [ihdr_chunk srgb_chunk idat_chunks other_chunks];
      rewrite <- ?app_assoc; try reflexivity;
      exfalso; unfold is_other in *; cbn [fst] in *;
      rewrite !not_elem_of_cons in *; tauto.
Qed.

Lemma classify_spec (cs : list chunk) :
  classify cs
  = Classified (slot_of_type (b "IHDR") cs) (slot_of_type (b "sRGB") cs)
      (chunks_of_type (b "IDAT") cs) (filter is_other cs).
Proof.
  unfold classify. rewrite classify_fold. simpl.
  destruct (slot_of_type (b "IHDR") cs), (slot_of_type (b "sRGB") cs); reflexivity.
Qed.

(** The chunks the parser yields after the last chunk before the terminal
    chunk do not change the classification. *)
Lemma classify_with_terminal (cs : list chunk) :
  classify (cs ++ [(b "IEND", [])]) = classify cs.
Proof.
  unfold classify. rewrite fold_left_app. reflexivity.
Qed.

(** ** Rebuilding *)

Lemma append_chunks_frames (cs : list chunk) :
  ∀ png_data : bytes,
    Forall wf_chunk cs → append_chunks png_data cs = Ok (png_data ++ frames cs).
Proof.
  induction cs as [|[t d] cs IH]; intros png_data Hwf.
  - simpl. rewrite app_nil_r. reflexivity.
  - apply Forall_cons in Hwf as [[_ Hd] Hwf]. cbn [fst snd] in Hd.
    cbn [append_chunks]. rewrite create_png_chunk_frame by exact Hd.
    unfold mbind, result_bind. rewrite IH by exact Hwf.
    rewrite frames_cons, <- app_assoc. reflexivity.
Qed.

Lemma Forall_wf_filter (P : chunk → Prop) `{∀ c, Decision (P c)} (cs : list chunk) :
  Forall wf_chunk cs → Forall wf_chunk (filter P cs).
Proof.
  rewrite !Forall_forall. intros Hwf c Hc.
  apply list_elem_of_filter in Hc as [_ Hc]. auto.
Qed.

Lemma slot_of_type_wf (ty : bytes) (cs : list chunk) (c : chunk) :
  Forall wf_chunk cs → slot_of_type ty cs = Some c → wf_chunk c.
Proof.
  intros Hwf Hs. apply last_Some_elem_of in Hs.
  apply list_elem_of_filter in Hs as [_ Hc].
  rewrite Forall_forall in Hwf. auto.
Qed.

(** ** The codec, the parser and the inserter against the specification *)

Ltac wf_chunks_by_computation :=
  repeat first [ apply Forall_nil_2
               | apply Forall_cons_2; [split; vm_compute; reflexivity|] ].

Ltac types_differ_by_computation :=
  repeat first [ apply Forall_nil_2
               | apply Forall_cons_2;
                 [let H := fresh in intros H; vm_compute in H; discriminate H|] ].

Lemma result_bind_ret {A} (m : result A) : (x ← m; Ok x) = m.
Proof. destruct m; reflexivity. Qed.

(** C6. For a 4-byte type and a payload whose length fits the 32-bit length
    field, [create_png_chunk] returns the length as 4 big-endian bytes, the
    type, the payload, and the CRC-32 of type ++ payload as 4 big-endian
    bytes; read back from its result, the length field is the payload
    length, the type and payload fields are the type and the payload, and
    the CRC field (the last four bytes) is crc32 (type ++ payload). *)
Theorem create_png_chunk_layout (chunk_type data : bytes) :
  length chunk_type = 4%nat → Z.of_nat (length data) < 2 ^ 32 →
  ∃ out,
    create_png_chunk chunk_type data = Ok out
    ∧ out = be32 (Z.of_nat (length data)) ++ chunk_type ++ data
            ++ be32 (crc32 (chunk_type ++ data))
    ∧ unpack_be32 (slice out 0 4) = Ok (Z.of_nat (length data))
    ∧ slice out 4 8 = chunk_type
    ∧ slice out 8 (8 + Z.of_nat (length data)) = data
    ∧ unpack_be32 (slice_from out (-4)) = Ok (crc32 (chunk_type ++ data)).
Proof.
  intros Ht Hd. exists (frame chunk_type data).
  split; [apply create_png_chunk_frame, Hd|]. split; [reflexivity|].
  pose proof (frame_read_size [] chunk_type data [] Ht Hd) as Hsize.
  pose proof (frame_read_type [] chunk_type data [] Ht) as Htype.
  pose proof (frame_read_data [] chunk_type data [] Ht) as Hdata.
  cbn [length app Z.of_nat Z.add] in Hsize, Htype, Hdata.
  rewrite app_nil_r in Hsize, Htype, Hdata.
  repeat split; try assumption.
  unfold frame. rewrite !app_assoc.
  unfold slice_from, clamp_index. cbn [Z.ltb Z.compare].
  rewrite !length_app, !be32_length.
  replace (Z.to_nat (Z.max 0 _))
    with (length ((be32 (Z.of_nat (length data)) ++ chunk_type) ++ data))
    by (rewrite !length_app, be32_length; lia).
  rewrite drop_app_length. apply unpack_be32_be32, crc32_range.
Qed.

Lemma create_png_chunk_layout_witness :
  ∃ out, create_png_chunk (b "IEND") [] = Ok out
         ∧ unpack_be32 (slice_from out (-4)) = Ok (crc32 (b "IEND" ++ [])).
Proof.
  destruct (create_png_chunk_layout (b "IEND") []) as (out & H1 & _ & _ & _ & _ & H6).
  - reflexivity.
  - vm_compute. reflexivity.
  - exists out. split; assumption.
Defined.

(** C1. On a PNG file (signature, well-formed chunks none of which is IEND,
    terminal chunk, and any bytes after it) the parse-classify-rebuild stage
    returns the signature, the IHDR chunk if the input has one and nothing
    in its place otherwise, the input's sRGB chunk or else an sRGB chunk with
    the one payload byte 0, the "other" chunks in their input order, the
    IDAT chunks in their input order, and an IEND chunk with empty payload;
    chunks of type IEND, eXIf, pHYs and sBIT are not "other" and are not
    written. Where the input repeats IHDR or sRGB, which a valid PNG does
    not, the last one is the one kept. *)
Theorem preassemble_png_file (cs : list chunk) (trailing : bytes) :
  Forall wf_chunk cs → Forall (λ c, c.1 ≠ b "IEND") cs →
  preassemble (png_file cs ++ trailing)
  = Ok (PNG_SIGNATURE
        ++ match slot_of_type (b "IHDR") cs with
           | Some c => frame c.1 c.2
           | None => []
           end
        ++ match slot_of_type (b "sRGB") cs with
           | Some c => frame c.1 c.2
           | None => frame (b "sRGB") [Byte.x00]
           end
        ++ frames (filter is_other cs)
        ++ frames (chunks_of_type (b "IDAT") cs)
        ++ frame (b "IEND") []).
Proof.
  intros Hwf Hne. unfold preassemble.
  rewrite extract_chunks_png_file by assumption.
  unfold mbind at 1, result_bind at 1.
  assert (Hcl : classify (cs ++ match trailing with
                                 | [] => []
                                 | _ :: _ => [(b "IEND", [])]
                                 end) = classify cs).
  { destruct trailing; [rewrite app_nil_r; reflexivity|apply classify_with_terminal]. }
  rewrite Hcl, classify_spec. unfold build_base_png.
  cbn [ihdr_chunk srgb_chunk idat_chunks other_chunks].
  assert (Hh : ∀ ty, match slot_of_type ty cs with
                     | Some (t, d) => c ← create_png_chunk t d; Ok (PNG_SIGNATURE ++ c)
                     | None => Ok PNG_SIGNATURE
                     end
                     = Ok (PNG_SIGNATURE ++ match slot_of_type ty cs with
                                            | Some c => frame c.1 c.2
                                            | None => []
                                            end)).
  { intros ty. destruct (slot_of_type ty cs) as [[t d]|] eqn:E.
    - apply slot_of_type_wf in E as [_ Hd]; [|exact Hwf]. cbn [fst snd] in *.
      rewrite create_png_chunk_frame by exact Hd. reflexivity.
    - rewrite app_nil_r. reflexivity. }
  rewrite Hh. unfold mbind at 1, result_bind at 1.
  set (p1 := PNG_SIGNATURE ++ _).
  assert (Hs : match slot_of_type (b "sRGB") cs with
               | Some (t, d) => c ← create_png_chunk t d; Ok (p1 ++ c)
               | None => c ← create_png_chunk (b "sRGB") [Byte.x00]; Ok (p1 ++ c)
               end
               = Ok (p1 ++ match slot_of_type (b "sRGB") cs with
                           | Some c => frame c.1 c.2
                           | None => frame (b "sRGB") [Byte.x00]
                           end)).
  { destruct (slot_of_type (b "sRGB") cs) as [[t d]|] eqn:E.
    - apply slot_of_type_wf in E as [_ Hd]; [|exact Hwf]. cbn [fst snd] in *.
      rewrite create_png_chunk_frame by exact Hd. reflexivity.
    - rewrite create_png_chunk_frame by (vm_compute; reflexivity). reflexivity. }
  rewrite Hs. unfold mbind at 1, result_bind at 1.
  rewrite append_chunks_frames by (apply Forall_wf_filter, Hwf).
  unfold mbind at 1, result_bind at 1.
  rewrite append_chunks_frames by (apply Forall_wf_filter, Hwf).
  unfold mbind at 1, result_bind at 1.
  rewrite create_png_chunk_frame by (vm_compute; reflexivity).
  unfold mbind, result_bind. subst p1. rewrite <- !app_assoc. reflexivity.
Qed.

Lemma preassemble_png_file_witness :
  preassemble (png_file example_chunks_with_phys ++ [])
  = Ok (PNG_SIGNATURE ++ frame (b "IHDR") example_ihdr_data
        ++ frame (b "sRGB") [Byte.x00] ++ frame (b "tEXt") (b "Software")
        ++ frame (b "IDAT") example_idat_data ++ frame (b "IEND") []).
Proof.
  rewrite (preassemble_png_file example_chunks_with_phys []).
  - vm_compute. reflexivity.
  - unfold example_chunks_with_phys. wf_chunks_by_computation.
  - unfold example_chunks_with_phys. types_differ_by_computation.
Defined.

(** C2, at a well-formed input. On the PNG file whose chunks are IHDR and
    IEND, with nothing after IEND, the parser yields the IHDR chunk alone:
    the terminal chunk starts at [len(data) - 12], where the loop condition
    [i < len(data) - 12] is already false. *)
Theorem extract_chunks_omits_final_IEND :
  extract_chunks_from_bytes (png_file [(b "IHDR", example_ihdr_data)])
  = Ok [(b "IHDR", example_ihdr_data)].
Proof. vm_compute. reflexivity. Qed.

(** With at least one byte after the terminal chunk, it is yielded, and is
    the last chunk yielded. *)
Lemma extract_chunks_trailing_bytes (cs : list chunk) (x : byte) (trailing : bytes) :
  Forall wf_chunk cs → Forall (λ c, c.1 ≠ b "IEND") cs →
  ∃ yielded,
    extract_chunks_from_bytes (png_file cs ++ x :: trailing) = Ok yielded
    ∧ last yielded = Some (b "IEND", []).
Proof.
  intros Hwf Hne. eexists. split; [apply extract_chunks_png_file; assumption|].
  apply last_snoc.
Qed.

Lemma chunks_of_type_absent (ty : bytes) (cs : list chunk) :
  Forall (λ c, c.1 ≠ ty) cs → chunks_of_type ty cs = [].
Proof.
  induction 1 as [|c cs Hc _ IH]; [reflexivity|].
  rewrite chunks_of_type_cons, IH. destruct (decide (c.1 = ty)); [contradiction|reflexivity].
Qed.

Lemma chunks_of_type_app (ty : bytes) (xs ys : list chunk) :
  chunks_of_type ty (xs ++ ys) = chunks_of_type ty xs ++ chunks_of_type ty ys.
Proof. unfold chunks_of_type. apply filter_app. Qed.

(** C3. When the chunks before the terminal chunk include one of the
    anchor's type, [insert_chunk_after] returns the buffer with the framed
    new chunk spliced in at the end of the first such chunk's framed record:
    the result is the PNG file whose chunk sequence has the new chunk
    immediately after that anchor. If no chunk of the input has the new
    chunk's type, the new chunk is the only chunk of its type in the
    result. *)
Theorem insert_chunk_after_anchor_present
    (before after : list chunk) (anchor payload new_type new_data : bytes) :
  Forall wf_chunk (before ++ (anchor, payload) :: after) →
  Forall (λ c, c.1 ≠ anchor) before →
  Z.of_nat (length new_data) < 2 ^ 32 →
  let buffer := png_file (before ++ (anchor, payload) :: after) in
  let anchor_end :=
    Z.of_nat (length (PNG_SIGNATURE ++ frames before ++ frame anchor payload)) in
  let chunks' := before ++ (anchor, payload) :: (new_type, new_data) :: after in
  insert_chunk_after buffer anchor new_type new_data
  = Ok (slice_to buffer anchor_end ++ frame new_type new_data
        ++ slice_from buffer anchor_end)
  ∧ insert_chunk_after buffer anchor new_type new_data = Ok (png_file chunks')
  ∧ (Forall (λ c, c.1 ≠ new_type) (before ++ (anchor, payload) :: after) →
     new_type ≠ b "IEND" →
     chunks_of_type new_type (chunks' ++ [(b "IEND", [])]) = [(new_type, new_data)]).
Proof.
  intros Hwf Hne Hnew buffer anchor_end chunks'.
  pose proof Hwf as Hwf'.
  apply Forall_app in Hwf' as [Hb Ha]. apply Forall_cons in Ha as [Ha _].
  assert (Hins : insert_chunk_after buffer anchor new_type new_data
                 = Ok (png_file chunks')).
  { subst buffer chunks'. rewrite insert_chunk_after_png_file by assumption.
    rewrite insert_after_first_present by (assumption || reflexivity). reflexivity. }
  split; [|split; [exact Hins|]].
  - assert (Hbuf : buffer = (PNG_SIGNATURE ++ frames before ++ frame anchor payload)
                            ++ (frames after ++ frame (b "IEND") [])).
    { subst buffer. unfold png_file. rewrite frames_app, frames_cons. cbn [fst snd].
      rewrite <- !app_assoc. reflexivity. }
    rewrite Hins. f_equal.
    rewrite Hbuf, slice_to_prefix, slice_from_suffix by reflexivity.
    subst chunks'. unfold png_file. rewrite frames_app, !frames_cons. cbn [fst snd].
    rewrite <- !app_assoc. reflexivity.
  - intros Hfresh Hend. subst chunks'.
    apply Forall_app in Hfresh as [Hf1 Hf2]. apply Forall_cons in Hf2 as [Hf2 Hf3].
    rewrite <- app_assoc, chunks_of_type_app, <- !app_comm_cons.
    rewrite (chunks_of_type_absent _ before) by exact Hf1.
    rewrite !chunks_of_type_cons, chunks_of_type_app.
    rewrite (chunks_of_type_absent _ after) by exact Hf3.
    cbn [fst snd] in *.
    destruct (decide (anchor = new_type)); [contradiction|].
    destruct (decide (new_type = new_type)); [|contradiction].
    rewrite chunks_of_type_cons. cbn [fst].
    destruct (decide (b "IEND" = new_type)); [congruence|reflexivity].
Qed.

Lemma insert_chunk_after_anchor_present_witness :
  insert_chunk_after
    (png_file ([(b "IHDR", example_ihdr_data); (b "sRGB", [Byte.x00])]
               ++ (b "eXIf", b "exif") :: [(b "IDAT", example_idat_data)]))
    (b "eXIf") (b "pHYs") (be32 5669 ++ be32 5669 ++ [Byte.x01])
  = Ok (png_file ([(b "IHDR", example_ihdr_data); (b "sRGB", [Byte.x00])]
                  ++ (b "eXIf", b "exif")
                     :: (b "pHYs", be32 5669 ++ be32 5669 ++ [Byte.x01])
                     :: [(b "IDAT", example_idat_data)])).
Proof.
  apply (insert_chunk_after_anchor_present
           [(b "IHDR", example_ihdr_data); (b "sRGB", [Byte.x00])]
           [(b "IDAT", example_idat_data)]).
  - wf_chunks_by_computation.
  - types_differ_by_computation.
  - vm_compute. reflexivity.
Defined.

(** C4. When no chunk of a PNG file, the terminal chunk included, has the
    anchor's type, the last 12 bytes of the buffer are the terminal chunk's
    framed record and [insert_chunk_after] splices the framed new chunk in
    immediately before them: the result is the PNG file whose chunk sequence
    ends with the new chunk, followed by the terminal chunk. *)
Theorem insert_chunk_after_anchor_absent
    (cs : list chunk) (anchor new_type new_data : bytes) :
  Forall wf_chunk cs →
  Forall (λ c, c.1 ≠ anchor) (cs ++ [(b "IEND", [])]) →
  Z.of_nat (length new_data) < 2 ^ 32 →
  let buffer := png_file cs in
  let terminal_start := Z.of_nat (length buffer) - 12 in
  slice_from buffer terminal_start = frame (b "IEND") []
  ∧ insert_chunk_after buffer anchor new_type new_data
    = Ok (slice_to buffer terminal_start ++ frame new_type new_data
          ++ slice_from buffer terminal_start)
  ∧ insert_chunk_after buffer anchor new_type new_data
    = Ok (png_file (cs ++ [(new_type, new_data)])).
Proof.
  intros Hwf Hne Hnew buffer terminal_start.
  apply Forall_app in Hne as [Hne _].
  assert (Hsplit : buffer = (PNG_SIGNATURE ++ frames cs) ++ frame (b "IEND") []).
  { subst buffer. unfold png_file. rewrite <- app_assoc. reflexivity. }
  assert (Hstart : terminal_start = Z.of_nat (length (PNG_SIGNATURE ++ frames cs))).
  { subst terminal_start. rewrite Hsplit, !length_app, frame_length. simpl. lia. }
  assert (Hfrom : slice_from buffer terminal_start = frame (b "IEND") []).
  { rewrite Hsplit. apply slice_from_suffix. exact Hstart. }
  assert (Hto : slice_to buffer terminal_start = PNG_SIGNATURE ++ frames cs).
  { rewrite Hsplit. apply slice_to_prefix. exact Hstart. }
  split; [exact Hfrom|].
  rewrite Hfrom, Hto. subst buffer.
  rewrite insert_chunk_after_absent by assumption.
  split; [rewrite <- !app_assoc; reflexivity|].
  unfold png_file. rewrite frames_app, frames_cons.
  change (frames []) with (@nil byte). cbn [fst snd].
  rewrite app_nil_r, <- !app_assoc. reflexivity.
Qed.

Lemma insert_chunk_after_anchor_absent_witness :
  insert_chunk_after (png_file example_chunks) (b "eXIf") (b "pHYs")
    (be32 5669 ++ be32 5669 ++ [Byte.x01])
  = Ok (png_file (example_chunks
                  ++ [(b "pHYs", be32 5669 ++ be32 5669 ++ [Byte.x01])])).
Proof.
  apply (insert_chunk_after_anchor_absent example_chunks).
  - unfold example_chunks. wf_chunks_by_computation.
  - unfold example_chunks. cbn [app]. types_differ_by_computation.
  - vm_compute. reflexivity.
Defined.

(** C10. The anchor scan does not reach the record that is the last 12
    bytes of the buffer: on a PNG file in which no chunk before the terminal
    chunk has the anchor's type, the scan finds nothing even when the
    anchor's type is that of the terminal chunk, and the new chunk is
    spliced in immediately before the terminal chunk. On any buffer at all,
    a position the scan reports is the end of a record that starts more than
    12 bytes before the end of the buffer. *)
Theorem insert_chunk_after_skips_terminal
    (cs : list chunk) (anchor new_type new_data : bytes) :
  Forall wf_chunk cs → Forall (λ c, c.1 ≠ anchor) cs →
  Z.of_nat (length new_data) < 2 ^ 32 →
  find_insert_pos (length (png_file cs)) (png_file cs) anchor 8 = Ok None
  ∧ insert_chunk_after (png_file cs) anchor new_type new_data
    = Ok (PNG_SIGNATURE ++ frames cs ++ frame new_type new_data
          ++ frame (b "IEND") [])
  ∧ ∀ (png_data : bytes) (pos : Z),
      find_insert_pos (length png_data) png_data anchor 8 = Ok (Some pos) →
      ∃ start size,
        pos = start + 12 + size
        ∧ 8 <= start < Z.of_nat (length png_data) - 12
        ∧ slice png_data (start + 4) (start + 8) = anchor.
Proof.
  intros Hwf Hne Hnew. split; [|split].
  - apply find_insert_pos_absent; assumption.
  - apply insert_chunk_after_absent; assumption.
  - intros png_data pos Hpos.
    destruct (find_insert_pos_total (length png_data) png_data anchor 8
                ltac:(lia) ltac:(lia)) as [E|(start & size & E & Hs & _ & Ht)];
      rewrite E in Hpos; [discriminate|].
    injection Hpos as <-. exists start, size. auto.
Qed.

Lemma insert_chunk_after_skips_terminal_witness :
  find_insert_pos (length (png_file example_chunks)) (png_file example_chunks)
    (b "IEND") 8 = Ok None
  ∧ insert_chunk_after (png_file example_chunks) (b "IEND") (b "sBIT")
      [Byte.x08; Byte.x08; Byte.x08]
    = Ok (PNG_SIGNATURE ++ frames example_chunks
          ++ frame (b "sBIT") [Byte.x08; Byte.x08; Byte.x08]
          ++ frame (b "IEND") []).
Proof.
  destruct (insert_chunk_after_skips_terminal example_chunks (b "IEND") (b "sBIT")
              [Byte.x08; Byte.x08; Byte.x08]) as (Hscan & Hins & _).
  - unfold example_chunks. wf_chunks_by_computation.
  - unfold example_chunks. types_differ_by_computation.
  - vm_compute. reflexivity.
  - split; [exact Hscan|exact Hins].
Defined.

(** ** Inserting pHYs and sBIT *)

Lemma has_chunk_elem (ty : bytes) (cs : list chunk) :
  has_chunk ty cs = bool_decide (ty ∈ cs.*1).
Proof.
  induction cs as [|c cs IH]; [reflexivity|].
  cbn [has_chunk existsb fmap list_fmap]. fold (has_chunk ty cs). rewrite IH.
  destruct (decide (c.1 = ty)) as [E|N].
  - rewrite (bool_decide_eq_true_2 (c.1 = ty)) by exact E.
    symmetry. apply bool_decide_eq_true_2. rewrite E. apply list_elem_of_here.
  - rewrite (bool_decide_eq_false_2 (c.1 = ty)) by exact N. cbn [orb].
    apply bool_decide_ext. rewrite elem_of_cons. split; [auto|].
    intros [E|H]; [congruence|exact H].
Qed.

Lemma has_chunk_parsed (ty : bytes) (cs : list chunk) (trailing : bytes) :
  ty ≠ b "IEND" →
  has_chunk ty (cs ++ match trailing with [] => [] | _ => [(b "IEND", [])] end)
  = bool_decide (ty ∈ cs.*1).
Proof.
  intros Hty. rewrite <- has_chunk_elem. unfold has_chunk. rewrite existsb_app.
  destruct trailing; cbn [existsb fst]; [apply orb_false_r|].
  rewrite bool_decide_eq_false_2 by congruence. rewrite !orb_false_r. reflexivity.
Qed.

Lemma phys_data_default : phys_data = Ok default_phys.
Proof. reflexivity. Qed.

Lemma sbit_data_default : sbit_data = default_sbit.
Proof. reflexivity. Qed.

(** [reposition] in terms of what the parsed chunk list contains. *)
Lemma reposition_unfold (cs : list chunk) (trailing : bytes) :
  Forall wf_chunk cs → Forall (λ c, c.1 ≠ b "IEND") cs →
  reposition (png_file cs ++ trailing)
  = (png_data ← (if bool_decide (b "pHYs" ∈ cs.*1) then Ok (png_file cs ++ trailing)
                 else insert_chunk_after (png_file cs ++ trailing)
                        (b "eXIf") (b "pHYs") default_phys);
     if bool_decide (b "sBIT" ∈ cs.*1) then Ok png_data
     else insert_chunk_after png_data (b "pHYs") (b "sBIT") default_sbit).
Proof.
  intros Hwf Hne. unfold reposition.
  rewrite extract_chunks_png_file by assumption.
  unfold mbind at 1, result_bind at 1. unfold insert_missing_chunks.
  rewrite !has_chunk_parsed by (intros H; vm_compute in H; discriminate H).
  rewrite phys_data_default, sbit_data_default.
  destruct (bool_decide (b "pHYs" ∈ cs.*1)); cbn [mbind result_bind].
  - destruct (bool_decide (b "sBIT" ∈ cs.*1)); [reflexivity|apply result_bind_ret].
  - destruct (insert_chunk_after _ _ _ _); [|reflexivity].
    destruct (bool_decide (b "sBIT" ∈ cs.*1)); [reflexivity|apply result_bind_ret].
Qed.


(** C5. On a PNG file that already has a pHYs chunk the step inserts no
    pHYs chunk, and on one that already has an sBIT chunk it inserts no sBIT
    chunk; on one that has both it returns the buffer as it is, so that
    running it a second time returns the same buffer again: the existing
    chunks are kept and nothing is duplicated. *)
Theorem reposition_skips_existing (cs : list chunk) (trailing : bytes) :
  Forall wf_chunk cs → Forall (λ c, c.1 ≠ b "IEND") cs →
  let buffer := png_file cs ++ trailing in
  (b "pHYs" ∈ cs.*1 → b "sBIT" ∉ cs.*1 →
   reposition buffer = insert_chunk_after buffer (b "pHYs") (b "sBIT") default_sbit)
  ∧ (b "sBIT" ∈ cs.*1 → b "pHYs" ∉ cs.*1 →
     reposition buffer = insert_chunk_after buffer (b "eXIf") (b "pHYs") default_phys)
  ∧ (b "pHYs" ∈ cs.*1 → b "sBIT" ∈ cs.*1 →
     reposition buffer = Ok buffer
     ∧ (once ← reposition buffer; reposition once) = Ok buffer).
Proof.
  intros Hwf Hne buffer. subst buffer.
  pose proof (reposition_unfold cs trailing Hwf Hne) as Hr.
  split; [|split]; intros H1 H2; [| |split].
  - rewrite Hr, (bool_decide_eq_true_2 _ H1), (bool_decide_eq_false_2 _ H2).
    reflexivity.
  - rewrite Hr, (bool_decide_eq_true_2 _ H1), (bool_decide_eq_false_2 _ H2).
    cbn [mbind result_bind]. apply result_bind_ret.
  - rewrite Hr, (bool_decide_eq_true_2 _ H1), (bool_decide_eq_true_2 _ H2).
    reflexivity.
  - assert (Hb : reposition (png_file cs ++ trailing) = Ok (png_file cs ++ trailing)).
    { rewrite Hr, (bool_decide_eq_true_2 _ H1), (bool_decide_eq_true_2 _ H2).
      reflexivity. }
    rewrite Hb. cbn [mbind result_bind]. exact Hb.
Qed.

Lemma reposition_skips_existing_witness :
  reposition (png_file example_converted_chunks ++ [])
  = Ok (png_file example_converted_chunks ++ []).
Proof.
  apply (reposition_skips_existing example_converted_chunks []).
  - unfold example_converted_chunks. wf_chunks_by_computation.
  - unfold example_converted_chunks. types_differ_by_computation.
  - vm_compute. set_solver.
  - vm_compute. set_solver.
Defined.

(** ** Reposition is idempotent on every PNG file *)

Lemma insert_after_first_Forall (P : chunk → Prop) (anchor : bytes) (new : chunk)
    (cs : list chunk) :
  P new → Forall P cs → Forall P (insert_after_first anchor new cs).
Proof.
  intros Hn. induction 1 as [|c cs Hc Hcs IH]; simpl.
  - constructor; [exact Hn|constructor].
  - destruct (decide (c.1 = anchor)); repeat constructor; assumption.
Qed.

Lemma insert_after_first_elem (anchor : bytes) (new c : chunk) (cs : list chunk) :
  c ∈ insert_after_first anchor new cs ↔ c = new ∨ c ∈ cs.
Proof.
  induction cs as [|x cs IH]; simpl.
  - rewrite list_elem_of_singleton, elem_of_nil. tauto.
  - destruct (decide (x.1 = anchor)); rewrite !elem_of_cons; [|rewrite IH]; tauto.
Qed.

Lemma insert_after_first_type (anchor ty : bytes) (new : chunk) (cs : list chunk) :
  ty ∈ (insert_after_first anchor new cs).*1 ↔ ty = new.1 ∨ ty ∈ cs.*1.
Proof.
  split.
  - intros H. apply list_elem_of_fmap_1 in H as (c & -> & Hc).
    apply insert_after_first_elem in Hc as [->|Hc]; [auto|].
    right. apply list_elem_of_fmap_2, Hc.
  - intros [->|H].
    + apply list_elem_of_fmap_2, insert_after_first_elem. auto.
    + apply list_elem_of_fmap_1 in H as (c & -> & Hc).
      apply list_elem_of_fmap_2, insert_after_first_elem. auto.
Qed.

Lemma reposition_png_file (cs : list chunk) :
  Forall wf_chunk cs → Forall (λ c, c.1 ≠ b "IEND") cs →
  reposition (png_file cs) = Ok (png_file (reposition_chunks cs)).
Proof.
  intros Hwf Hne.
  pose proof (reposition_unfold cs [] Hwf Hne) as Hr. rewrite app_nil_r in Hr.
  rewrite Hr. unfold reposition_chunks.
  assert (Hp : Z.of_nat (length default_phys) < 2 ^ 32) by (vm_compute; reflexivity).
  assert (Hs : Z.of_nat (length default_sbit) < 2 ^ 32) by (vm_compute; reflexivity).
  assert (Hwp : wf_chunk (b "pHYs", default_phys)) by (split; vm_compute; reflexivity).
  destruct (bool_decide (b "pHYs" ∈ cs.*1)); cbn [mbind result_bind].
  - destruct (bool_decide (b "sBIT" ∈ cs.*1)); [reflexivity|].
    apply insert_chunk_after_png_file; assumption.
  - rewrite insert_chunk_after_png_file by assumption.
    cbn [mbind result_bind].
    destruct (bool_decide (b "sBIT" ∈ cs.*1)); [reflexivity|].
    apply insert_chunk_after_png_file; [|assumption].
    apply insert_after_first_Forall; assumption.
Qed.

Lemma reposition_chunks_complete (cs : list chunk) :
  b "pHYs" ∈ (reposition_chunks cs).*1 ∧ b "sBIT" ∈ (reposition_chunks cs).*1.
Proof.
  unfold reposition_chunks.
  destruct (bool_decide (b "pHYs" ∈ cs.*1)) eqn:Ep;
    destruct (bool_decide (b "sBIT" ∈ cs.*1)) eqn:Es;
    try apply bool_decide_eq_true_1 in Ep; try apply bool_decide_eq_true_1 in Es;
    rewrite ?insert_after_first_type; cbn [fst]; auto.
Qed.



(** ** Paths *)

Lemma string_app_nil_r (s : string) : s +:+ "" = s.
Proof.
  induction s as [|a s IH]; [reflexivity|].
  change (String a (s +:+ "") = String a s). rewrite IH. reflexivity.
Qed.

Lemma string_app_ne_self (s t : string) : t ≠ "" → s +:+ t ≠ s.
Proof.
  intros Ht E. apply Ht. apply (String.app_inj s).
  rewrite string_app_nil_r. exact E.
Qed.

Lemma temp_file1_ne_output (out : string) : out +:+ ".temp1" ≠ out.
Proof. apply string_app_ne_self. discriminate. Qed.

Lemma temp_png_ne_output (out : string) : out +:+ ".temp_png" ≠ out.
Proof. apply string_app_ne_self. discriminate. Qed.

Lemma temp_png_ne_temp_file1 (out : string) : out +:+ ".temp_png" ≠ out +:+ ".temp1".
Proof. intros E. apply (String.app_inj out) in E. discriminate E. Qed.

(** ** Computations that leave the files alone *)

Section Quiet.

Context `{Collaborators}.

Lemma quiet_ret {A} (a : A) : quiet (mret a).
Proof. intros st. reflexivity. Qed.

Lemma quiet_lift {A} (r : result A) : quiet (lift r).
Proof. intros st. reflexivity. Qed.

Lemma quiet_raise {A} (e : exn) : quiet (raise (A:=A) e).
Proof. intros st. reflexivity. Qed.

Lemma quiet_bind {A B} (m : M A) (f : A → M B) :
  quiet m → (∀ a, quiet (f a)) → quiet (m ≫= f).
Proof.
  intros Hm Hf st. unfold mbind, M_bind. specialize (Hm st).
  destruct (m st) as [[a|e] st']; simpl in *; [|exact Hm].
  rewrite Hf. exact Hm.
Qed.

Lemma quiet_try {A} (body : M A) (handler : exn → M A) :
  quiet body → (∀ e, quiet (handler e)) → quiet (try_except body handler).
Proof.
  intros Hm Hf st. unfold try_except. specialize (Hm st).
  destruct (body st) as [[a|e] st']; simpl in *; [exact Hm|].
  rewrite Hf. exact Hm.
Qed.

Lemma quiet_print (line : string) : quiet (print line).
Proof. intros st. reflexivity. Qed.

Lemma quiet_print_unless_batch (batch_mode : bool) (line : string) :
  quiet (print_unless_batch batch_mode line).
Proof. destruct batch_mode; intros st; reflexivity. Qed.

Lemma quiet_read_file (path : string) : quiet (read_file path).
Proof. intros st. unfold read_file. destruct (files st !! path); reflexivity. Qed.

Lemma quiet_getmtime (path : string) : quiet (getmtime path).
Proof. intros st. unfold getmtime. destruct (files st !! path); reflexivity. Qed.

Lemma quiet_path_exists (path : string) : quiet (path_exists path).
Proof. intros st. reflexivity. Qed.

Lemma quiet_run_query tool (cmd : list string) : quiet (run_query tool cmd).
Proof. intros st. reflexivity. Qed.

End Quiet.

Ltac solve_quiet :=
  repeat first
    [ apply quiet_ret | apply quiet_lift | apply quiet_raise | apply quiet_print
    | apply quiet_print_unless_batch | apply quiet_read_file | apply quiet_getmtime
    | apply quiet_path_exists | apply quiet_run_query
    | apply quiet_bind; [|intros ?]
    | apply quiet_try; [|intros ?]
    | match goal with
      | |- quiet (if ?c then _ else _) => destruct c
      | |- quiet (match ?x with _ => _ end) => destruct x
      end ].

Section OrchestratorProperties.

Context `{Collaborators}.

Lemma quiet_image_open (path : string) : quiet (image_open path).
Proof. unfold image_open. solve_quiet. Qed.

Lemma quiet_derive_datetime (path : string) (preserve_date : bool) :
  quiet (derive_datetime path preserve_date).
Proof. unfold derive_datetime, image_open. solve_quiet. Qed.

Lemma quiet_extract_chunks_from_png (path : string) :
  quiet (extract_chunks_from_png path).
Proof. unfold extract_chunks_from_png. solve_quiet. Qed.

(** *** What [prepare] leaves behind *)

Lemma triple_ret {A} (P : gmap string file → Prop) (Q : A → gmap string file → Prop)
    (a : A) :
  (∀ fs, P fs → Q a fs) → triple P (mret a) Q.
Proof.
  intros HQ st a' st' HP E. unfold mret, M_ret in E. simplify_eq. auto.
Qed.

Lemma triple_bind {A B} (P : gmap string file → Prop) (R : A → gmap string file → Prop)
    (Q : B → gmap string file → Prop) (m : M A) (f : A → M B) :
  triple P m R → (∀ a, triple (R a) (f a) Q) → triple P (m ≫= f) Q.
Proof.
  intros Hm Hf st b st' HP E. unfold mbind, M_bind in E.
  destruct (m st) as [[a|e] st1] eqn:Em; [|discriminate].
  eapply Hf; [|exact E]. eapply Hm; eauto.
Qed.

Lemma triple_quiet {A} (P : gmap string file → Prop) (m : M A) :
  quiet m → triple P m (λ _, P).
Proof.
  intros Hq st a st' HP E. specialize (Hq st). rewrite E in Hq. simpl in Hq.
  rewrite Hq. exact HP.
Qed.

Lemma triple_write_file (P : gmap string file → Prop) (path : string) (data : bytes) :
  triple P (write_file path data) (λ _ fs, ∃ fs0, P fs0 ∧ fs = <[path := File data clock]> fs0).
Proof.
  intros st a st' HP E. unfold write_file in E. simplify_eq. simpl. eauto.
Qed.

Lemma prepare_triple (batch_mode : bool) (input_path : string)
    (output_path : option string) (preserve_date : bool) :
  let out := default_output_path input_path output_path in
  triple (λ _, True) (prepare batch_mode input_path output_path preserve_date)
    (λ p fs,
       p_output_path p = out
       ∧ p_original_input_path p = input_path
       ∧ p_temp_file1 p = out +:+ ".temp1"
       ∧ is_Some (fs !! (out +:+ ".temp1"))
       ∧ match p_temp_png p with
         | Some temp_png => temp_png = out +:+ ".temp_png" ∧ is_Some (fs !! temp_png)
         | None => True
         end).
Proof.
  intros out. unfold prepare. fold out.
  set (R := λ (tp : option string) (fs : gmap string file),
         match tp with
         | Some temp_png => temp_png = out +:+ ".temp_png" ∧ is_Some (fs !! temp_png)
         | None => True
         end).
  eapply triple_bind; [apply triple_quiet, quiet_image_open|]. intros img.
  eapply triple_bind; [apply triple_quiet; solve_quiet|]. intros is_png.
  apply (triple_bind _ (λ x fs, R x.2 fs)).
  { destruct is_png; cbn [negb].
    - apply triple_ret. intros; exact I.
    - eapply triple_bind; [apply triple_quiet; solve_quiet|]. intros ?.
      eapply triple_bind; [apply triple_write_file|]. intros ?.
      eapply triple_bind; [apply triple_quiet; solve_quiet|]. intros ?.
      apply triple_ret. intros fs (fs0 & _ & E). rewrite E. cbn [snd]. unfold R.
      split; [reflexivity|]. rewrite lookup_insert_eq. eauto. }
  intros [input_path' temp_png]. cbn [snd].
  eapply triple_bind; [apply triple_quiet, quiet_derive_datetime|]. intros dt.
  eapply triple_bind; [apply triple_quiet; solve_quiet|]. intros ?.
  eapply triple_bind; [apply triple_quiet, quiet_extract_chunks_from_png|]. intros chunks.
  eapply triple_bind; [apply triple_quiet; solve_quiet|]. intros png_data.
  eapply triple_bind; [apply triple_write_file|]. intros ?.
  apply triple_ret. intros fs (fs0 & HR & E). rewrite E.
  cbn [p_output_path p_original_input_path p_temp_file1 p_temp_png].
  repeat split; try reflexivity.
  - rewrite lookup_insert_eq. eauto.
  - unfold R in *. destruct temp_png as [t|]; [|exact I].
    destruct HR as [-> Hs]. split; [reflexivity|].
    rewrite lookup_insert_ne
      by (intros E'; symmetry in E'; revert E'; apply temp_png_ne_temp_file1).
    exact Hs.
Qed.

(** *** Paths a conversion does not touch before the metadata tool runs *)

Lemma preserves_quiet {A} (path : string) (m : M A) : quiet m → preserves path m.
Proof. intros Hq st. rewrite Hq. reflexivity. Qed.

Lemma preserves_bind {A B} (path : string) (m : M A) (f : A → M B) :
  preserves path m → (∀ a, preserves path (f a)) → preserves path (m ≫= f).
Proof.
  intros Hm Hf st. unfold mbind, M_bind. specialize (Hm st).
  destruct (m st) as [[a|e] st']; simpl in *; [|exact Hm].
  rewrite Hf. exact Hm.
Qed.

Lemma preserves_write_file (path target : string) (data : bytes) :
  target ≠ path → preserves path (write_file target data).
Proof. intros Hne st. simpl. apply lookup_insert_ne, Hne. Qed.

Lemma prepare_preserves_output (batch_mode : bool) (input_path : string)
    (output_path : option string) (preserve_date : bool) :
  preserves (default_output_path input_path output_path)
    (prepare batch_mode input_path output_path preserve_date).
Proof.
  unfold prepare.
  apply preserves_bind; [apply preserves_quiet, quiet_image_open|]. intros img.
  apply preserves_bind; [apply preserves_quiet; solve_quiet|]. intros is_png.
  apply preserves_bind.
  { destruct is_png; cbn [negb]; [apply preserves_quiet; solve_quiet|].
    apply preserves_bind; [apply preserves_quiet; solve_quiet|]. intros ?.
    apply preserves_bind; [apply preserves_write_file, temp_png_ne_output|]. intros ?.
    apply preserves_quiet; solve_quiet. }
  intros [input_path' temp_png].
  apply preserves_bind; [apply preserves_quiet, quiet_derive_datetime|]. intros dt.
  apply preserves_bind; [apply preserves_quiet; solve_quiet|]. intros ?.
  apply preserves_bind; [apply preserves_quiet, quiet_extract_chunks_from_png|].
  intros chunks.
  apply preserves_bind; [apply preserves_quiet; solve_quiet|]. intros png_data.
  apply preserves_bind; [apply preserves_write_file, temp_file1_ne_output|]. intros ?.
  apply preserves_quiet; solve_quiet.
Qed.

(** *** The failure handlers of the metadata step *)

Lemma remove_if_exists_run (path : string) (fs : gmap string file) (out : list string) :
  remove_if_exists path (State fs out) = (Ok tt, State (delete path fs) out).
Proof.
  unfold remove_if_exists, path_exists, remove, mbind, M_bind. cbn [files stdout].
  destruct (fs !! path) as [f|] eqn:E.
  - rewrite bool_decide_eq_true_2 by eauto. cbn [files stdout]. rewrite E. reflexivity.
  - rewrite bool_decide_eq_false_2 by (intros [? ?]; discriminate).
    rewrite delete_id by exact E. reflexivity.
Qed.

Lemma externalize_metadata_failure (batch_mode : bool) (p : prepared) (st : state) :
  tool_failure
    (exiftool
       (metadata_cmd (bool_decide (is_Some (files st !! p_original_input_path p)))
          (p_original_input_path p) (p_datetime_original p) (p_temp_file1 p))
       (files st)) →
  ∃ out, externalize_metadata batch_mode p st
         = (Ok false, State (delete (p_temp_file1 p) (files st)) out).
Proof.
  intros Hfail. unfold externalize_metadata, try_except, path_exists, run_exiftool.
  unfold mbind at 1, M_bind at 1. unfold mbind at 1, M_bind at 1.
  destruct (exiftool _ _) as [data|stderr [data|]|]; [contradiction|..];
    destruct st as [fs out]; cbn [files stdout];
    unfold print, mbind, M_bind; cbn [files stdout];
    rewrite !remove_if_exists_run; unfold mret, M_ret;
    rewrite ?delete_insert_eq, ?delete_delete_eq; eauto.
Qed.

(** C7. When the conversion has written its intermediate file and the
    metadata tool then exits non-zero or is not found, the conversion
    returns [None], the intermediate file is gone, and the file at the
    destination path is what it was before the conversion, absent if it was
    absent. *)
Theorem tool_failure_leaves_no_output (batch_mode : bool) (input_path : string)
    (output_path : option string) (preserve_date : bool) (st st1 : state)
    (p : prepared) :
  prepare batch_mode input_path output_path preserve_date st = (Ok p, st1) →
  tool_failure
    (exiftool
       (metadata_cmd (bool_decide (is_Some (files st1 !! p_original_input_path p)))
          (p_original_input_path p) (p_datetime_original p) (p_temp_file1 p))
       (files st1)) →
  ∃ st2,
    convert_android_to_ios batch_mode input_path output_path preserve_date st
    = (Ok None, st2)
    ∧ p_output_path p = default_output_path input_path output_path
    ∧ p_temp_file1 p = p_output_path p +:+ ".temp1"
    ∧ is_Some (files st1 !! p_temp_file1 p)
    ∧ files st2 !! p_temp_file1 p = None
    ∧ files st2 !! p_output_path p = files st !! p_output_path p.
Proof.
  intros Hprep Hfail.
  destruct (externalize_metadata_failure batch_mode p st1 Hfail) as [out Hext].
  pose proof (prepare_triple batch_mode input_path output_path preserve_date
                st p st1 I Hprep) as (Hout & _ & Htemp & Hwritten & _).
  pose proof (prepare_preserves_output batch_mode input_path output_path
                preserve_date st) as Hpres.
  rewrite Hprep in Hpres. cbn [snd] in Hpres.
  eexists. split.
  { unfold convert_android_to_ios, mbind, M_bind. rewrite Hprep.
    fold (@mbind M _). unfold mbind, M_bind. rewrite Hext. reflexivity. }
  cbn [files]. rewrite Hout, Htemp.
  repeat split; try assumption.
  - apply lookup_delete_eq.
  - rewrite lookup_delete_ne by apply temp_file1_ne_output. exact Hpres.
Qed.

(** When the input was not a PNG file, the same failure leaves the
    format-conversion temporary in place. *)
Lemma tool_failure_leaves_temp_png (batch_mode : bool) (input_path : string)
    (output_path : option string) (preserve_date : bool) (st st1 : state)
    (p : prepared) (temp_png : string) :
  prepare batch_mode input_path output_path preserve_date st = (Ok p, st1) →
  p_temp_png p = Some temp_png →
  tool_failure
    (exiftool
       (metadata_cmd (bool_decide (is_Some (files st1 !! p_original_input_path p)))
          (p_original_input_path p) (p_datetime_original p) (p_temp_file1 p))
       (files st1)) →
  ∃ st2,
    convert_android_to_ios batch_mode input_path output_path preserve_date st
    = (Ok None, st2)
    ∧ is_Some (files st2 !! temp_png).
Proof.
  intros Hprep Htp Hfail.
  destruct (externalize_metadata_failure batch_mode p st1 Hfail) as [out Hext].
  pose proof (prepare_triple batch_mode input_path output_path preserve_date
                st p st1 I Hprep) as (_ & _ & Htemp & _ & Hpng).
  rewrite Htp in Hpng. destruct Hpng as [-> Hsome].
  eexists. split.
  { unfold convert_android_to_ios, mbind, M_bind. rewrite Hprep.
    fold (@mbind M _). unfold mbind, M_bind. rewrite Hext. reflexivity. }
  cbn [files]. rewrite Htemp.
  rewrite lookup_delete_ne
    by (intros E; symmetry in E; revert E; apply temp_png_ne_temp_file1).
  exact Hsome.
Qed.

End OrchestratorProperties.

(** ** The batch-mode flag *)

Section Agree.

Context `{Collaborators}.

Lemma agree_ret {A} (a : A) : agree (mret a) (mret a).
Proof. intros st1 st2 E. split; [reflexivity|exact E]. Qed.

Lemma agree_lift {A} (r : result A) : agree (lift r) (lift r).
Proof. intros st1 st2 E. split; [reflexivity|exact E]. Qed.

Lemma agree_raise {A} (e : exn) : agree (raise (A:=A) e) (raise e).
Proof. apply agree_lift. Qed.

Lemma agree_bind {A B} (m1 m2 : M A) (f1 f2 : A → M B) :
  agree m1 m2 → (∀ a, agree (f1 a) (f2 a)) → agree (m1 ≫= f1) (m2 ≫= f2).
Proof.
  intros Hm Hf st1 st2 E. unfold mbind, M_bind.
  destruct (Hm st1 st2 E) as [Hr Hs].
  destruct (m1 st1) as [[a1|e1] st1'], (m2 st2) as [[a2|e2] st2'];
    cbn [fst snd] in *; try discriminate.
  - injection Hr as ->. apply Hf, Hs.
  - injection Hr as ->. split; [reflexivity|assumption].
Qed.

Lemma agree_try {A} (body1 body2 : M A) (handler1 handler2 : exn → M A) :
  agree body1 body2 → (∀ e, agree (handler1 e) (handler2 e)) →
  agree (try_except body1 handler1) (try_except body2 handler2).
Proof.
  intros Hm Hf st1 st2 E. unfold try_except.
  destruct (Hm st1 st2 E) as [Hr Hs].
  destruct (body1 st1) as [[a1|e1] st1'], (body2 st2) as [[a2|e2] st2'];
    cbn [fst snd] in *; try discriminate.
  - split; assumption.
  - injection Hr as ->. apply Hf, Hs.
Qed.

(** A computation of no result that always returns and leaves the files
    alone agrees with any other such computation. *)
Lemma agree_quiet (m1 m2 : M unit) :
  quiet m1 → quiet m2 → (∀ st, (m1 st).1 = Ok tt) → (∀ st, (m2 st).1 = Ok tt) →
  agree m1 m2.
Proof.
  intros Hq1 Hq2 Ht1 Ht2 st1 st2 E. rewrite Ht1, Ht2, Hq1, Hq2. auto.
Qed.

Lemma agree_print (line : string) : agree (print line) (print line).
Proof. intros st1 st2 E. split; [reflexivity|exact E]. Qed.

Lemma agree_print_unless_batch (batch1 batch2 : bool) (line : string) :
  agree (print_unless_batch batch1 line) (print_unless_batch batch2 line).
Proof.
  apply agree_quiet; try apply quiet_print_unless_batch;
    intros st; [destruct batch1|destruct batch2]; reflexivity.
Qed.

Lemma agree_read_file (path : string) : agree (read_file path) (read_file path).
Proof.
  intros st1 st2 E. unfold read_file. rewrite E.
  destruct (files st2 !! path); split; first [exact E | reflexivity].
Qed.

Lemma agree_write_file (path : string) (data : bytes) :
  agree (write_file path data) (write_file path data).
Proof. intros st1 st2 E. unfold write_file. cbn. rewrite E. auto. Qed.

Lemma agree_path_exists (path : string) : agree (path_exists path) (path_exists path).
Proof. intros st1 st2 E. unfold path_exists. cbn. rewrite E. auto. Qed.

Lemma agree_remove (path : string) : agree (remove path) (remove path).
Proof.
  intros st1 st2 E. unfold remove. rewrite E.
  destruct (files st2 !! path); cbn; rewrite ?E; auto.
Qed.

Lemma agree_getmtime (path : string) : agree (getmtime path) (getmtime path).
Proof.
  intros st1 st2 E. unfold getmtime. rewrite E.
  destruct (files st2 !! path); split; first [exact E | reflexivity].
Qed.

Lemma agree_utime (path : string) (t : Z) : agree (utime path t) (utime path t).
Proof.
  intros st1 st2 E. unfold utime. rewrite E.
  destruct (files st2 !! path); cbn; rewrite ?E; auto.
Qed.

Lemma agree_run_exiftool (cmd : list string) (target : string) :
  agree (run_exiftool cmd target) (run_exiftool cmd target).
Proof.
  intros st1 st2 E. unfold run_exiftool. rewrite E.
  destruct (exiftool cmd (files st2)) as [out|stderr [data|]|]; cbn; rewrite ?E; auto.
Qed.

Lemma try_except_unit_returns (body : M unit) (st : state) :
  (try_except body (λ _, mret tt) st).1 = Ok tt.
Proof.
  unfold try_except. destruct (body st) as [[[]|e] st']; reflexivity.
Qed.

Lemma quiet_print_lines (lines : list string) :
  quiet (foldr (λ line rest, print ("   " +:+ line);; rest) (mret tt) lines).
Proof.
  induction lines as [|line lines IH]; cbn [foldr]; [apply quiet_ret|].
  apply quiet_bind; [apply quiet_print|]. intros _. exact IH.
Qed.

Lemma quiet_verify_description (batch_mode : bool) (output_path : string) :
  quiet (verify_description batch_mode output_path).
Proof. unfold verify_description. solve_quiet. Qed.

Lemma quiet_verify_chunk_order (batch_mode : bool) (output_path : string) :
  quiet (verify_chunk_order batch_mode output_path).
Proof.
  unfold verify_chunk_order. destruct batch_mode; cbn [negb]; [apply quiet_ret|].
  apply quiet_try; [|intros ?; apply quiet_ret].
  apply quiet_bind; [apply quiet_run_query|]. intros out.
  apply quiet_bind; [apply quiet_print|]. intros ?.
  apply quiet_bind; [apply quiet_print|]. intros ?.
  apply quiet_print_lines.
Qed.

Lemma agree_verify_description (batch1 batch2 : bool) (output_path : string) :
  agree (verify_description batch1 output_path) (verify_description batch2 output_path).
Proof.
  apply agree_quiet; try apply quiet_verify_description;
    intros st; unfold verify_description;
    [destruct batch1|destruct batch2]; cbn [negb];
    first [reflexivity | apply try_except_unit_returns].
Qed.

Lemma agree_verify_chunk_order (batch1 batch2 : bool) (output_path : string) :
  agree (verify_chunk_order batch1 output_path) (verify_chunk_order batch2 output_path).
Proof.
  apply agree_quiet; try apply quiet_verify_chunk_order;
    intros st; unfold verify_chunk_order;
    [destruct batch1|destruct batch2]; cbn [negb];
    first [reflexivity | apply try_except_unit_returns].
Qed.

End Agree.

Ltac solve_agree :=
  repeat first
    [ apply agree_ret | apply agree_lift | apply agree_raise | apply agree_print
    | apply agree_print_unless_batch | apply agree_verify_description
    | apply agree_verify_chunk_order | apply agree_read_file | apply agree_write_file
    | apply agree_path_exists | apply agree_remove | apply agree_getmtime
    | apply agree_utime | apply agree_run_exiftool
    | apply agree_bind; [|intros ?]
    | apply agree_try; [|intros ?]
    | match goal with
      | |- agree (if ?c then _ else _) (if ?c then _ else _) => destruct c
      | |- agree (match ?x with _ => _ end) (match ?x with _ => _ end) => destruct x
      end ].

Section BatchMode.

Context `{Collaborators}.

Lemma agree_prepare (batch1 batch2 : bool) (input_path : string)
    (output_path : option string) (preserve_date : bool) :
  agree (prepare batch1 input_path output_path preserve_date)
        (prepare batch2 input_path output_path preserve_date).
Proof.
  unfold prepare, image_open, derive_datetime, extract_chunks_from_png, image_open.
  solve_agree.
Qed.

Lemma agree_externalize_metadata (batch1 batch2 : bool) (p : prepared) :
  agree (externalize_metadata batch1 p) (externalize_metadata batch2 p).
Proof. unfold externalize_metadata, remove_if_exists. solve_agree. Qed.

Lemma agree_reposition_and_finalize (batch1 batch2 preserve_date : bool) (p : prepared) :
  agree (reposition_and_finalize batch1 preserve_date p)
        (reposition_and_finalize batch2 preserve_date p).
Proof.
  unfold reposition_and_finalize, extract_chunks_from_png, remove_if_exists.
  solve_agree.
Qed.

(** C9. For every input path, output path, date option and state of the
    files, the conversion run with the batch-mode flag set and the
    conversion run with it unset return the same result and leave the same
    files, byte for byte; only the lines printed may differ. Besides
    [print], the flag guards the two verification commands, which read the
    destination file and whose output is only printed. *)
Theorem batch_mode_flag_gates_only_printing (input_path : string)
    (output_path : option string) (preserve_date : bool) (st : state) :
  let with_flag := convert_android_to_ios true input_path output_path preserve_date st in
  let without := convert_android_to_ios false input_path output_path preserve_date st in
  with_flag.1 = without.1 ∧ files with_flag.2 = files without.2.
Proof.
  intros with_flag without. subst with_flag without.
  apply (agree_bind _ _ _ _ (agree_prepare true false _ _ _)); [|reflexivity].
  intros p.
  apply (agree_bind _ _ _ _ (agree_externalize_metadata true false p)).
  intros [|]; [apply agree_reposition_and_finalize|apply agree_ret].
Qed.

End BatchMode.

(** ** Conversions of a JPEG file on two example machines *)

Lemma tool_failure_leaves_no_output_witness :
  ∃ st2,
    convert_android_to_ios (H:=machine_without_exiftool)
      false "shot.jpg" (Some "shot.png") true jpeg_only = (Ok None, st2)
    ∧ files st2 !! "shot.png.temp1" = None
    ∧ files st2 !! "shot.png" = None.
Proof.
  edestruct (tool_failure_leaves_no_output (H:=machine_without_exiftool)
               false "shot.jpg" (Some "shot.png") true jpeg_only)
    as (st2 & Hrun & Hout & Htemp & _ & Hgone & Hdest).
  - vm_compute. reflexivity.
  - exact I.
  - exists st2. split; [exact Hrun|].
    rewrite Htemp, Hout in Hgone. rewrite Hout in Hdest.
    split; [exact Hgone|exact Hdest].
Defined.

(** C8, at a failure path. The conversion of a JPEG file on a machine
    without exiftool returns [None] with the intermediate file removed and
    the format-conversion temporary still on disk. *)
Theorem temp_png_left_behind_without_exiftool :
  let run := convert_android_to_ios (H:=machine_without_exiftool)
               false "shot.jpg" (Some "shot.png") true jpeg_only in
  run.1 = Ok None
  ∧ files run.2 !! "shot.png.temp1" = None
  ∧ files run.2 !! "shot.png.temp_png"
    = Some (File (png_file [(b "IHDR", example_ihdr_data);
                            (b "IDAT", example_idat_data)]) 0).
Proof. vm_compute. repeat split. Qed.

(** The success path of the same conversion removes both temporaries, and
    writes IHDR, sRGB, eXIf, pHYs, sBIT, IDAT, IEND to the destination. *)
Lemma temporaries_removed_on_success :
  let run := convert_android_to_ios (H:=machine_with_exiftool)
               false "shot.jpg" (Some "shot.png") true jpeg_only in
  run.1 = Ok (Some "shot.png")
  ∧ files run.2 !! "shot.png.temp1" = None
  ∧ files run.2 !! "shot.png.temp_png" = None
  ∧ content <$> files run.2 !! "shot.png"
    = Some (png_file [(b "IHDR", example_ihdr_data); (b "sRGB", [Byte.x00]);
                      (b "eXIf", b "exif"); (b "pHYs", default_phys);
                      (b "sBIT", default_sbit); (b "IDAT", example_idat_data)]).
Proof. vm_compute. repeat split. Qed.

(** * Further properties of the code *)

(** ** The parser on arbitrary buffers *)

Lemma lor_below_32 (x y : Z) :
  0 <= x < 2 ^ 32 → 0 <= y < 2 ^ 32 → 0 <= Z.lor x y < 2 ^ 32.
Proof.
  intros Hx Hy.
  assert (H0 : 0 <= Z.lor x y) by (apply Z.lor_nonneg; lia).
  split; [exact H0|].
  destruct (Z.eq_dec (Z.lor x y) 0) as [->|Hne]; [lia|].
  apply Z.log2_lt_pow2; [lia|].
  rewrite Z.log2_lor by lia.
  assert (Lx : Z.log2 x < 32).
  { destruct (Z.eq_dec x 0) as [->|]; [reflexivity|]. apply Z.log2_lt_pow2; lia. }
  assert (Ly : Z.log2 y < 32).
  { destruct (Z.eq_dec y 0) as [->|]; [reflexivity|]. apply Z.log2_lt_pow2; lia. }
  lia.
Qed.

Lemma shiftl_byte_below_32 (x : byte) (s : Z) :
  0 <= s <= 24 → 0 <= Z.shiftl (byte_val x) s < 2 ^ 32.
Proof.
  intros Hs. pose proof (byte_val_range x) as Hx.
  rewrite Z.shiftl_mul_pow2 by lia.
  assert (Hp : 0 < 2 ^ s <= 2 ^ 24).
  { split; [apply Z.pow_pos_nonneg; lia|apply Z.pow_le_mono_r; lia]. }
  split; [nia|].
  apply Z.le_lt_trans with (255 * 2 ^ 24); [nia|reflexivity].
Qed.

Lemma unpack_be32_range (bs : bytes) (n : Z) :
  unpack_be32 bs = Ok n → 0 <= n < 2 ^ 32.
Proof.
  destruct bs as [|b3 [|b2 [|b1 [|b0 [|]]]]]; try discriminate.
  intros E. injection E as <-.
  repeat apply lor_below_32; try (apply shiftl_byte_below_32; lia).
  pose proof (byte_val_range b0). lia.
Qed.

Lemma slice_length_le (data : bytes) (lo hi : Z) :
  0 <= lo <= hi → Z.of_nat (length (slice data lo hi)) <= hi - lo.
Proof.
  intros H. unfold slice, clamp_index.
  destruct (Z.ltb_spec lo 0), (Z.ltb_spec hi 0); try lia.
  rewrite length_take, length_drop. lia.
Qed.

Lemma terminal_only_last_cons (c : chunk) (cs : list chunk) :
  c.1 ≠ b "IEND" → terminal_only_last cs → terminal_only_last (c :: cs).
Proof.
  intros Hc Hcs [|k] x Hx Hend.
  - injection Hx as <-. contradiction.
  - cbn [length]. f_equal. apply (Hcs k x); assumption.
Qed.

Lemma terminal_only_last_single (c : chunk) : terminal_only_last [c].
Proof.
  intros [|k] x Hx _; [reflexivity|]. destruct k; discriminate Hx.
Qed.

Lemma terminal_only_last_nil : terminal_only_last [].
Proof. intros k x Hx. destruct k; discriminate Hx. Qed.

(** What the loop appends: chunks with a 4-byte type and a payload no longer
    than the 32-bit length read for it, with IEND at the end only. *)
Lemma extract_loop_yields (fuel : nat) :
  ∀ (data : bytes) (i : Z) (acc cs : list chunk),
    0 <= i → extract_loop fuel data i acc = Ok cs →
    ∃ new, cs = acc ++ new ∧ Forall wf_chunk new ∧ terminal_only_last new.
Proof.
  induction fuel as [|fuel IH]; intros data i acc cs H0.
  - simpl. destruct (Z.ltb_spec i (Z.of_nat (length data) - 12)); [discriminate|].
    intros E. injection E as <-. exists [].
    rewrite app_nil_r. repeat split; [constructor|apply terminal_only_last_nil].
  - rewrite extract_loop_unfold.
    destruct (Z.ltb_spec i (Z.of_nat (length data) - 12)) as [Hlt|].
    2:{ intros E. injection E as <-. exists [].
        rewrite app_nil_r. repeat split; [constructor|apply terminal_only_last_nil]. }
    destruct (unpack_be32 (slice data i (i + 4))) as [size|e] eqn:Hu; [|discriminate].
    apply unpack_be32_range in Hu. unfold mbind, result_bind.
    set (t := slice data (i + 4) (i + 8)).
    set (d := slice data (i + 8) (i + 8 + size)).
    assert (Hwf : wf_chunk (t, d)).
    { split; cbn [fst snd].
      - pose proof (slice_length_inside data (i + 4) (i + 8)). subst t. lia.
      - pose proof (slice_length_le data (i + 8) (i + 8 + size)). subst d. lia. }
    destruct (decide (t = b "IEND")) as [Ht|Ht].
    + intros E. injection E as <-. exists [(t, d)].
      repeat split; [repeat constructor; apply Hwf|apply terminal_only_last_single].
    + intros E. apply IH in E as (new & -> & Hnew & Hlast); [|lia].
      exists ((t, d) :: new). rewrite <- app_assoc.
      repeat split; [constructor; assumption|].
      apply terminal_only_last_cons; assumption.
Qed.

(** X1. The parser raises ValueError exactly when the buffer does not start
    with the 8-byte signature; on every other buffer, truncated or not, it
    returns a chunk list (no struct.error, no endless loop). *)
Theorem extract_chunks_from_bytes_outcome (data : bytes) :
  if decide (slice_to data 8 = PNG_SIGNATURE)
  then ∃ cs, extract_chunks_from_bytes data = Ok cs
  else extract_chunks_from_bytes data = Raise ValueError.
Proof.
  unfold extract_chunks_from_bytes.
  destruct (decide (slice_to data 8 = PNG_SIGNATURE)); [|reflexivity].
  apply extract_loop_total; lia.
Qed.

(** X2. Every chunk the parser yields, on any buffer, has a type of exactly
    4 bytes and a payload shorter than 2^32 bytes, so [create_png_chunk]
    accepts it. *)
Theorem extract_chunks_yield_encodable (data : bytes) (cs : list chunk) :
  extract_chunks_from_bytes data = Ok cs →
  Forall wf_chunk cs
  ∧ Forall (λ c, ∃ out, create_png_chunk c.1 c.2 = Ok out) cs.
Proof.
  unfold extract_chunks_from_bytes.
  destruct (decide (slice_to data 8 = PNG_SIGNATURE)); [|discriminate].
  intros E. apply extract_loop_yields in E as (new & -> & Hwf & _); [|lia].
  split; [exact Hwf|].
  eapply Forall_impl; [exact Hwf|].
  intros [t d] [_ Hd]. eexists. apply create_png_chunk_frame, Hd.
Qed.

Lemma extract_chunks_yield_encodable_witness :
  Forall wf_chunk [(b "IHDR", example_ihdr_data)].
Proof.
  apply (extract_chunks_yield_encodable (png_file [(b "IHDR", example_ihdr_data)])).
  vm_compute. reflexivity.
Defined.

(** X3. On any buffer, a chunk of type IEND can only be the last chunk the
    parser yields: the scan stops at the first IEND it reads. *)
Theorem extract_chunks_terminal_only_last (data : bytes) (cs : list chunk) :
  extract_chunks_from_bytes data = Ok cs → terminal_only_last cs.
Proof.
  unfold extract_chunks_from_bytes.
  destruct (decide (slice_to data 8 = PNG_SIGNATURE)); [|discriminate].
  intros E. apply extract_loop_yields in E as (new & -> & _ & Hlast); [|lia].
  exact Hlast.
Qed.

Lemma extract_chunks_terminal_only_last_witness :
  terminal_only_last [(b "IHDR", example_ihdr_data); (b "IEND", [])].
Proof.
  apply (extract_chunks_terminal_only_last
           (png_file [(b "IHDR", example_ihdr_data)] ++ [Byte.x00])).
  vm_compute. reflexivity.
Defined.

(** ** The end of the buffer *)

Lemma extract_loop_done (fuel : nat) (data : bytes) (i : Z) (acc : list chunk) :
  Z.of_nat (length data) - 12 <= i → extract_loop fuel data i acc = Ok acc.
Proof.
  intros Hi. apply Z.ltb_ge in Hi. destruct fuel; simpl; rewrite Hi; reflexivity.
Qed.

Lemma extract_loop_short_tail (fuel : nat) (pre tail : bytes) (acc : list chunk) :
  (length tail <= 12)%nat →
  extract_loop fuel (pre ++ tail) (Z.of_nat (length pre)) acc = Ok acc.
Proof.
  intros Ht.
  assert (H : (Z.of_nat (length pre) <? Z.of_nat (length (pre ++ tail)) - 12) = false).
  { apply Z.ltb_ge. rewrite length_app. lia. }
  destruct fuel; simpl; rewrite H; reflexivity.
Qed.

(** X4. Decoding after encoding: on a PNG file, with or without bytes after
    the terminal chunk, the parser returns the chunks that were framed, in
    order, with their payloads, followed by the terminal chunk exactly when
    at least one byte follows it. *)
Theorem extract_chunks_of_frames (cs : list chunk) (trailing : bytes) :
  Forall wf_chunk cs → Forall (λ c, c.1 ≠ b "IEND") cs →
  extract_chunks_from_bytes (png_file cs ++ trailing)
  = Ok (if decide (trailing = []) then cs else cs ++ [(b "IEND", [])]).
Proof.
  intros Hwf Hne. rewrite extract_chunks_png_file by assumption.
  destruct trailing; [rewrite app_nil_r|]; reflexivity.
Qed.

Lemma extract_chunks_of_frames_witness :
  extract_chunks_from_bytes (png_file example_chunks ++ b "junk")
  = Ok (example_chunks ++ [(b "IEND", [])]).
Proof.
  apply (extract_chunks_of_frames example_chunks (b "junk")).
  - unfold example_chunks. wf_chunks_by_computation.
  - unfold example_chunks. types_differ_by_computation.
Defined.

(** X5. The last 12 bytes, or fewer, of a buffer are never read as a chunk:
    after a run of framed chunks, a tail of 1 to 12 bytes of any content is
    ignored. *)
Theorem extract_chunks_ignore_short_tail (cs : list chunk) (tail : bytes) :
  Forall wf_chunk cs → Forall (λ c, c.1 ≠ b "IEND") cs →
  (1 <= length tail <= 12)%nat →
  extract_chunks_from_bytes (PNG_SIGNATURE ++ frames cs ++ tail) = Ok cs.
Proof.
  intros Hwf Hne Ht. unfold extract_chunks_from_bytes.
  rewrite (slice_to_prefix PNG_SIGNATURE) by reflexivity.
  destruct (decide (PNG_SIGNATURE = PNG_SIGNATURE)) as [_|N]; [|contradiction].
  set (data := PNG_SIGNATURE ++ frames cs ++ tail).
  assert (Hlen : (length data = length cs + (length data - length cs))%nat).
  { pose proof (frames_length_ge cs). subst data. rewrite !length_app. lia. }
  rewrite Hlen. subst data.
  change 8 with (Z.of_nat (length PNG_SIGNATURE)).
  rewrite extract_loop_frames by (assumption || lia).
  rewrite (app_assoc PNG_SIGNATURE).
  apply extract_loop_short_tail. lia.
Qed.

Lemma extract_chunks_ignore_short_tail_witness :
  extract_chunks_from_bytes (PNG_SIGNATURE ++ frames example_chunks ++ b "IEND")
  = Ok example_chunks.
Proof.
  apply (extract_chunks_ignore_short_tail example_chunks (b "IEND")).
  - unfold example_chunks. wf_chunks_by_computation.
  - unfold example_chunks. types_differ_by_computation.
  - vm_compute. lia.
Defined.

Lemma slice_beyond_end (pre x : bytes) (lo hi : Z) :
  lo = Z.of_nat (length pre) → lo + Z.of_nat (length x) <= hi →
  slice (pre ++ x) lo hi = x.
Proof.
  intros -> Hhi. unfold slice, clamp_index. rewrite length_app.
  destruct (Z.ltb_spec (Z.of_nat (length pre)) 0), (Z.ltb_spec hi 0); try lia.
  replace (Z.to_nat (Z.of_nat (length pre) `min` _)) with (length pre) by lia.
  rewrite drop_app_length. apply take_ge. lia.
Qed.

(** X6. A truncated last chunk is still yielded: when the length field of
    the record that follows a run of framed chunks announces at least as
    many bytes as remain after its type, and more than 4 remain, the parser
    yields that record with all the remaining bytes as its payload, and
    stops. *)
Theorem extract_chunks_truncated_record
    (cs : list chunk) (size : Z) (chunk_type rest : bytes) :
  Forall wf_chunk cs → Forall (λ c, c.1 ≠ b "IEND") cs →
  length chunk_type = 4%nat →
  Z.of_nat (length rest) <= size < 2 ^ 32 → (5 <= length rest)%nat →
  extract_chunks_from_bytes
    (PNG_SIGNATURE ++ frames cs ++ be32 size ++ chunk_type ++ rest)
  = Ok (cs ++ [(chunk_type, rest)]).
Proof.
  intros Hwf Hne Hty Hsize Hrest. unfold extract_chunks_from_bytes.
  rewrite (slice_to_prefix PNG_SIGNATURE) by reflexivity.
  destruct (decide (PNG_SIGNATURE = PNG_SIGNATURE)) as [_|N]; [|contradiction].
  set (last_record := be32 size ++ chunk_type ++ rest).
  set (data := PNG_SIGNATURE ++ frames cs ++ last_record).
  assert (Hlast : length last_record = (8 + length rest)%nat).
  { subst last_record. rewrite !length_app, be32_length. lia. }
  assert (Hlen : (length data = length cs + S (length data - length cs - 1))%nat).
  { pose proof (frames_length_ge cs). subst data. rewrite !length_app. lia. }
  rewrite Hlen. subst data.
  change 8 with (Z.of_nat (length PNG_SIGNATURE)).
  rewrite extract_loop_frames by (assumption || lia).
  rewrite (app_assoc PNG_SIGNATURE).
  set (pre := PNG_SIGNATURE ++ frames cs).
  rewrite extract_loop_unfold.
  assert (Hlt : (Z.of_nat (length pre) <? Z.of_nat (length (pre ++ last_record)) - 12)
                = true).
  { apply Z.ltb_lt. rewrite length_app. lia. }
  rewrite Hlt. subst last_record.
  rewrite (slice_middle pre (be32 size) (chunk_type ++ rest)
             (Z.of_nat (length pre)) (Z.of_nat (length pre) + 4))
    by (rewrite ?be32_length; lia).
  rewrite unpack_be32_be32 by lia. unfold mbind, result_bind.
  rewrite (app_assoc pre (be32 size)).
  rewrite (slice_middle (pre ++ be32 size) chunk_type rest
             (Z.of_nat (length pre) + 4) (Z.of_nat (length pre) + 8))
    by (rewrite ?length_app, ?be32_length; lia).
  rewrite (app_assoc (pre ++ be32 size) chunk_type).
  rewrite (slice_beyond_end ((pre ++ be32 size) ++ chunk_type) rest)
    by (rewrite ?length_app, ?be32_length; lia).
  cbn [app]. destruct (decide (chunk_type = b "IEND")); [reflexivity|].
  apply extract_loop_done. rewrite !length_app, be32_length. lia.
Qed.

Lemma extract_chunks_truncated_record_witness :
  extract_chunks_from_bytes
    (PNG_SIGNATURE ++ frames [(b "IHDR", example_ihdr_data)]
     ++ be32 8192 ++ b "IDAT" ++ b "pixels")
  = Ok ([(b "IHDR", example_ihdr_data)] ++ [(b "IDAT", b "pixels")]).
Proof.
  apply (extract_chunks_truncated_record [(b "IHDR", example_ihdr_data)]).
  - wf_chunks_by_computation.
  - types_differ_by_computation.
  - reflexivity.
  - vm_compute. split; [discriminate|reflexivity].
  - vm_compute. lia.
Defined.

(** ** The inserter on arbitrary buffers *)

Lemma slice_to_from (data : bytes) (pos : Z) :
  slice_to data pos ++ slice_from data pos = data.
Proof. unfold slice_to, slice_from. apply take_drop. Qed.

Lemma clamp_index_bounds (n i : Z) : 0 <= n → 0 <= clamp_index n i <= n.
Proof. intros Hn. unfold clamp_index. destruct (Z.ltb_spec i 0); lia. Qed.

(** X7. On every buffer, found anchor or not, [insert_chunk_after] returns
    the input with the framed new chunk spliced in at one position: no input
    byte is dropped, changed or reordered, and the result is longer by the
    length of the framed chunk. *)
Theorem insert_chunk_after_splices (png_data anchor new_type new_data : bytes) :
  Z.of_nat (length new_data) < 2 ^ 32 →
  ∃ (k : nat) (out : bytes),
    insert_chunk_after png_data anchor new_type new_data = Ok out
    ∧ (k <= length png_data)%nat
    ∧ out = take k png_data ++ frame new_type new_data ++ drop k png_data
    ∧ length out = (length png_data + 8 + length new_type + length new_data)%nat.
Proof.
  intros Hnew. unfold insert_chunk_after.
  rewrite create_png_chunk_frame by exact Hnew.
  destruct (find_insert_pos (length png_data) png_data anchor 8) as [found|e] eqn:E.
  2:{ destruct (find_insert_pos_total (length png_data) png_data anchor 8
                  ltac:(lia) ltac:(lia)) as [E'|(s & z & E' & _)];
        rewrite E' in E; discriminate. }
  unfold mbind, result_bind.
  set (pos := match found with
              | Some pos => pos
              | None => Z.of_nat (length png_data) - 12
              end).
  exists (Z.to_nat (clamp_index (Z.of_nat (length png_data)) pos)),
    (slice_to png_data pos ++ frame new_type new_data ++ slice_from png_data pos).
  pose proof (clamp_index_bounds (Z.of_nat (length png_data)) pos ltac:(lia)) as Hk.
  repeat split; [lia|].
  unfold slice_to, slice_from.
  rewrite !length_app, length_take, length_drop, frame_length. lia.
Qed.

Lemma insert_chunk_after_splices_witness :
  ∃ (k : nat) (out : bytes),
    insert_chunk_after (b "not a PNG file at all") (b "eXIf") (b "pHYs") default_phys
    = Ok out
    ∧ length out = (length (b "not a PNG file at all") + 8 + 4 + 9)%nat.
Proof.
  destruct (insert_chunk_after_splices (b "not a PNG file at all") (b "eXIf")
              (b "pHYs") default_phys) as (k & out & Hrun & _ & _ & Hlen).
  - vm_compute. reflexivity.
  - exists k, out. split; [exact Hrun|exact Hlen].
Defined.

Lemma find_insert_pos_done (fuel : nat) (png_data anchor : bytes) (i : Z) :
  Z.of_nat (length png_data) - 12 <= i →
  find_insert_pos fuel png_data anchor i = Ok None.
Proof.
  intros Hi. apply Z.ltb_ge in Hi. destruct fuel; simpl; rewrite Hi; reflexivity.
Qed.

(** X8. On a buffer shorter than 12 bytes nothing is scanned, and the
    fallback position [len(png_data) - 12] is negative: Python counts it
    from the end, so the new chunk goes in front of the last [12 - len]
    bytes of the buffer, which is its very start when it has 6 bytes or
    fewer. *)
Theorem insert_chunk_after_short_buffer (png_data anchor new_type new_data : bytes) :
  (length png_data < 12)%nat → Z.of_nat (length new_data) < 2 ^ 32 →
  insert_chunk_after png_data anchor new_type new_data
  = Ok (take (2 * length png_data - 12) png_data ++ frame new_type new_data
        ++ drop (2 * length png_data - 12) png_data).
Proof.
  intros Hlen Hnew. unfold insert_chunk_after.
  assert (Hscan : find_insert_pos (length png_data) png_data anchor 8 = Ok None).
  { apply find_insert_pos_done. lia. }
  rewrite Hscan. unfold mbind, result_bind.
  rewrite create_png_chunk_frame by exact Hnew.
  unfold slice_to, slice_from, clamp_index.
  destruct (Z.ltb_spec (Z.of_nat (length png_data) - 12) 0) as [Hneg|Hzero]; [|lia].
  replace (Z.to_nat _) with (2 * length png_data - 12)%nat by lia. reflexivity.
Qed.

Lemma insert_chunk_after_short_buffer_witness :
  insert_chunk_after (b "12345678") (b "eXIf") (b "sBIT") default_sbit
  = Ok (b "1234" ++ frame (b "sBIT") default_sbit ++ b "5678").
Proof.
  rewrite (insert_chunk_after_short_buffer (b "12345678")).
  - reflexivity.
  - vm_compute. lia.
  - vm_compute. reflexivity.
Defined.

(** X9. Parsing after inserting: on a PNG file, the chunks of the result are
    the chunks of the input with the new chunk right after the first chunk
    of the anchor's type, or last before the terminal chunk when there is
    none. *)
Theorem extract_after_insert (cs : list chunk) (anchor new_type new_data : bytes) :
  Forall wf_chunk cs → Forall (λ c, c.1 ≠ b "IEND") cs →
  length new_type = 4%nat → new_type ≠ b "IEND" →
  Z.of_nat (length new_data) < 2 ^ 32 →
  (out ← insert_chunk_after (png_file cs) anchor new_type new_data;
   extract_chunks_from_bytes out)
  = Ok (insert_after_first anchor (new_type, new_data) cs).
Proof.
  intros Hwf Hne Hty Hnot Hnew.
  rewrite insert_chunk_after_png_file by assumption.
  cbn [mbind result_bind].
  rewrite <- (app_nil_r (png_file _)).
  rewrite extract_chunks_png_file; [rewrite app_nil_r; reflexivity|..].
  - apply insert_after_first_Forall; [split; assumption|exact Hwf].
  - apply insert_after_first_Forall; [exact Hnot|exact Hne].
Qed.

Lemma extract_after_insert_witness :
  (out ← insert_chunk_after (png_file example_chunks) (b "tEXt") (b "pHYs") default_phys;
   extract_chunks_from_bytes out)
  = Ok [(b "IHDR", example_ihdr_data); (b "tEXt", b "Software");
        (b "pHYs", default_phys); (b "IDAT", example_idat_data)].
Proof.
  rewrite (extract_after_insert example_chunks).
  - reflexivity.
  - unfold example_chunks. wf_chunks_by_computation.
  - unfold example_chunks. types_differ_by_computation.
  - reflexivity.
  - intros H. vm_compute in H. discriminate H.
  - vm_compute. reflexivity.
Defined.

(** ** The rebuild on arbitrary input *)

Lemma filter_all {A} (P : A → Prop) `{∀ x, Decision (P x)} (l : list A) :
  Forall P l → filter P l = l.
Proof.
  induction 1 as [|x l Hx _ IH]; [reflexivity|].
  rewrite filter_cons, IH. destruct (decide (P x)); [reflexivity|contradiction].
Qed.

Lemma filter_none {A} (P : A → Prop) `{∀ x, Decision (P x)} (l : list A) :
  Forall (λ x, ¬ P x) l → filter P l = [].
Proof.
  induction 1 as [|x l Hx _ IH]; [reflexivity|].
  rewrite filter_cons, IH. destruct (decide (P x)); [contradiction|reflexivity].
Qed.

Lemma chunks_of_type_Forall (ty : bytes) (cs : list chunk) :
  Forall (λ c, c.1 = ty) (chunks_of_type ty cs).
Proof.
  apply Forall_forall. intros c Hc.
  apply list_elem_of_filter in Hc as [Hc _]. exact Hc.
Qed.

Lemma filter_is_other_Forall (cs : list chunk) : Forall is_other (filter is_other cs).
Proof.
  apply Forall_forall. intros c Hc.
  apply list_elem_of_filter in Hc as [Hc _]. exact Hc.
Qed.

Lemma slot_of_type_type (ty : bytes) (cs : list chunk) (c : chunk) :
  slot_of_type ty cs = Some c → c.1 = ty.
Proof.
  intros Hs. apply last_Some_elem_of in Hs.
  apply list_elem_of_filter in Hs as [Hc _]. exact Hc.
Qed.

(** The rebuild writes the PNG file of [rebuilt_chunks]. *)
Lemma build_base_png_classify (cs : list chunk) :
  Forall wf_chunk cs →
  build_base_png (classify cs) = Ok (png_file (rebuilt_chunks cs)).
Proof.
  intros Hwf. rewrite classify_spec. unfold build_base_png, rebuilt_chunks, png_file.
  cbn [ihdr_chunk srgb_chunk idat_chunks other_chunks].
  rewrite !frames_app.
  rewrite (create_png_chunk_frame (b "IEND") []) by (vm_compute; reflexivity).
  rewrite (create_png_chunk_frame (b "sRGB") [Byte.x00]) by (vm_compute; reflexivity).
  destruct (slot_of_type (b "IHDR") cs) as [[t d]|] eqn:Eh;
    destruct (slot_of_type (b "sRGB") cs) as [[t' d']|] eqn:Es;
    repeat match goal with
      | E : slot_of_type _ cs = Some (?x, ?y) |- _ =>
          let Hd := fresh "Hd" in
          pose proof (slot_of_type_wf _ _ _ Hwf E) as [_ Hd]; cbn [fst snd] in Hd;
          rewrite (create_png_chunk_frame x y) by exact Hd; clear E
      end;
    cbn [mbind result_bind];
    rewrite append_chunks_frames by (apply Forall_wf_filter, Hwf);
    cbn [mbind result_bind];
    rewrite append_chunks_frames by (apply Forall_wf_filter, Hwf);
    cbn [mbind result_bind]; unfold frames, default;
    unfold option_list; cbn [option_rect from_option id flat_map fst snd];
    rewrite ?app_nil_r, <- ?app_assoc; reflexivity.
Qed.

Lemma is_other_types (c : chunk) :
  is_other c →
  c.1 ≠ b "IHDR" ∧ c.1 ≠ b "sRGB" ∧ c.1 ≠ b "IDAT"
  ∧ c.1 ∉ [b "IEND"; b "eXIf"; b "pHYs"; b "sBIT"].
Proof. unfold is_other. rewrite !not_elem_of_cons. tauto. Qed.

Lemma typed_not_other (ty : bytes) (c : chunk) :
  ty ∈ [b "IHDR"; b "sRGB"; b "IDAT"] → c.1 = ty → ¬ is_other c.
Proof.
  intros Hty <- Ho. apply Ho. revert Hty. rewrite !elem_of_cons. tauto.
Qed.

(** The "other" and IDAT chunks of a sequence, filtered again by class. *)
Lemma rebuilt_tail_classes (cs : list chunk) :
  let tail := filter is_other cs ++ chunks_of_type (b "IDAT") cs in
  chunks_of_type (b "IHDR") tail = []
  ∧ chunks_of_type (b "sRGB") tail = []
  ∧ filter is_other tail = filter is_other cs
  ∧ chunks_of_type (b "IDAT") tail = chunks_of_type (b "IDAT") cs.
Proof.
  intros tail. subst tail. unfold chunks_of_type. rewrite !filter_app.
  pose proof (filter_is_other_Forall cs) as Ho.
  pose proof (chunks_of_type_Forall (b "IDAT") cs) as Hi.
  unfold chunks_of_type in Hi.
  repeat split.
  - rewrite !filter_none; [reflexivity|..].
    + eapply Forall_impl; [exact Hi|]. intros c -> E. vm_compute in E. discriminate E.
    + eapply Forall_impl; [exact Ho|]. intros c Hc. apply is_other_types in Hc. tauto.
  - rewrite !filter_none; [reflexivity|..].
    + eapply Forall_impl; [exact Hi|]. intros c -> E. vm_compute in E. discriminate E.
    + eapply Forall_impl; [exact Ho|]. intros c Hc. apply is_other_types in Hc. tauto.
  - match type of Ho with Forall _ ?l => rewrite (filter_all is_other l) by exact Ho end.
    match type of Hi with Forall _ ?l => rewrite (filter_none is_other l) end;
      [apply app_nil_r|].
    eapply Forall_impl; [exact Hi|]. intros c Hc.
    apply (typed_not_other (b "IDAT")); [|exact Hc].
    rewrite !elem_of_cons. tauto.
  - match type of Ho with
    | Forall _ ?l => rewrite (filter_none (λ c : chunk, c.1 = b "IDAT") l)
    end.
    + match type of Hi with
      | Forall _ ?l => rewrite (filter_all (λ c : chunk, c.1 = b "IDAT") l) by exact Hi
      end.
      reflexivity.
    + eapply Forall_impl; [exact Ho|]. intros c Hc. apply is_other_types in Hc. tauto.
Qed.

(** Rebuilding keeps the classes of a sequence: the slots, the "other"
    chunks and the IDAT chunks of [rebuilt_chunks cs] are those it was built
    from. *)
Lemma rebuilt_chunks_classes (cs : list chunk) :
  chunks_of_type (b "IHDR") (rebuilt_chunks cs) = option_list (slot_of_type (b "IHDR") cs)
  ∧ chunks_of_type (b "sRGB") (rebuilt_chunks cs)
    = [default (b "sRGB", [Byte.x00]) (slot_of_type (b "sRGB") cs)]
  ∧ filter is_other (rebuilt_chunks cs) = filter is_other cs
  ∧ chunks_of_type (b "IDAT") (rebuilt_chunks cs) = chunks_of_type (b "IDAT") cs.
Proof.
  destruct (rebuilt_tail_classes cs) as (T1 & T2 & T3 & T4).
  unfold rebuilt_chunks.
  set (tail := filter is_other cs ++ chunks_of_type (b "IDAT") cs) in *.
  assert (Hs : ∃ d, default (b "sRGB", [Byte.x00]) (slot_of_type (b "sRGB") cs)
                    = (b "sRGB", d)).
  { destruct (slot_of_type (b "sRGB") cs) as [[t d]|] eqn:E; [|eexists; reflexivity].
    apply slot_of_type_type in E. cbn [fst] in E. subst t. eexists. reflexivity. }
  destruct Hs as [sd ->].
  destruct (slot_of_type (b "IHDR") cs) as [[t d]|] eqn:E.
  - apply slot_of_type_type in E. cbn [fst] in E. subst t.
    unfold option_list. cbn [option_rect app].
    rewrite !chunks_of_type_cons, !filter_cons, T1, T2, T3, T4. cbn [fst].
    settle_types. repeat split; reflexivity.
  - unfold option_list. cbn [option_rect app].
    rewrite !chunks_of_type_cons, !filter_cons, T1, T2, T3, T4. cbn [fst].
    settle_types. repeat split; reflexivity.
Qed.

Lemma rebuilt_chunks_idempotent (cs : list chunk) :
  rebuilt_chunks (rebuilt_chunks cs) = rebuilt_chunks cs.
Proof.
  destruct (rebuilt_chunks_classes cs) as (C1 & C2 & C3 & C4).
  unfold rebuilt_chunks at 1. unfold slot_of_type. rewrite C1, C2, C3, C4.
  unfold rebuilt_chunks, slot_of_type.
  destruct (last (chunks_of_type (b "IHDR") cs)); reflexivity.
Qed.

Lemma rebuilt_chunks_Forall (P : chunk → Prop) (cs : list chunk) :
  P (b "sRGB", [Byte.x00]) → Forall P cs → Forall P (rebuilt_chunks cs).
Proof.
  intros Hd Hcs. rewrite Forall_forall in Hcs. unfold rebuilt_chunks.
  rewrite !Forall_app. repeat split.
  - destruct (slot_of_type (b "IHDR") cs) as [c|] eqn:E; [|constructor].
    repeat constructor. apply Hcs. apply last_Some_elem_of in E.
    apply list_elem_of_filter in E as [_ E]. exact E.
  - repeat constructor.
    destruct (slot_of_type (b "sRGB") cs) as [c|] eqn:E; [|exact Hd].
    apply Hcs. apply last_Some_elem_of in E.
    apply list_elem_of_filter in E as [_ E]. exact E.
  - apply Forall_forall. intros c Hc. apply Hcs.
    apply list_elem_of_filter in Hc as [_ Hc]. exact Hc.
  - apply Forall_forall. intros c Hc. apply Hcs.
    apply list_elem_of_filter in Hc as [_ Hc]. exact Hc.
Qed.

Lemma rebuilt_chunks_unmanaged (cs : list chunk) :
  Forall (λ c, c.1 ∉ [b "IEND"; b "eXIf"; b "pHYs"; b "sBIT"]) (rebuilt_chunks cs).
Proof.
  unfold rebuilt_chunks. rewrite !Forall_app. repeat split.
  - destruct (slot_of_type (b "IHDR") cs) as [[t d]|] eqn:E; [|constructor].
    apply slot_of_type_type in E. cbn [fst] in E. subst t.
    repeat constructor. cbn [fst]. rewrite !not_elem_of_cons.
    repeat split; try (intros H; vm_compute in H; discriminate H). apply not_elem_of_nil.
  - repeat constructor.
    destruct (slot_of_type (b "sRGB") cs) as [[t d]|] eqn:E.
    + apply slot_of_type_type in E. cbn [fst] in E. subst t.
      cbn [default from_option id fst]. rewrite !not_elem_of_cons.
      repeat split; try (intros H; vm_compute in H; discriminate H).
      apply not_elem_of_nil.
    + cbn [default from_option id fst]. rewrite !not_elem_of_cons.
      repeat split; try (intros H; vm_compute in H; discriminate H).
      apply not_elem_of_nil.
  - eapply Forall_impl; [apply filter_is_other_Forall|].
    intros c Hc. apply is_other_types in Hc. tauto.
  - eapply Forall_impl; [apply chunks_of_type_Forall|].
    intros c ->. rewrite !not_elem_of_cons.
    repeat split; try (intros H; vm_compute in H; discriminate H). apply not_elem_of_nil.
Qed.

(** X10. Every buffer that starts with the signature is rebuilt, however
    malformed the rest: the stage returns a PNG file whose chunks before the
    terminal chunk are well-formed, include exactly one sRGB chunk and at
    most one IHDR chunk, and include no IEND, eXIf, pHYs or sBIT chunk. *)
Theorem preassemble_any_buffer (data : bytes) :
  slice_to data 8 = PNG_SIGNATURE →
  ∃ parsed,
    extract_chunks_from_bytes data = Ok parsed
    ∧ preassemble data = Ok (png_file (rebuilt_chunks parsed))
    ∧ Forall wf_chunk (rebuilt_chunks parsed)
    ∧ Forall (λ c, c.1 ∉ [b "IEND"; b "eXIf"; b "pHYs"; b "sBIT"]) (rebuilt_chunks parsed)
    ∧ length (chunks_of_type (b "sRGB") (rebuilt_chunks parsed)) = 1%nat
    ∧ (length (chunks_of_type (b "IHDR") (rebuilt_chunks parsed)) <= 1)%nat.
Proof.
  intros Hsig.
  destruct (extract_chunks_from_bytes_total data) as [E|[parsed E]].
  { unfold extract_chunks_from_bytes in E.
    destruct (decide (slice_to data 8 = PNG_SIGNATURE)); [|contradiction].
    destruct (extract_loop_total (length data) data 8 [] ltac:(lia) ltac:(lia))
      as [cs E']. rewrite E' in E. discriminate E. }
  assert (Hwf : Forall wf_chunk parsed).
  { unfold extract_chunks_from_bytes in E.
    destruct (decide (slice_to data 8 = PNG_SIGNATURE)); [|discriminate].
    apply extract_loop_yields in E as (new & -> & Hwf & _); [exact Hwf|lia]. }
  destruct (rebuilt_chunks_classes parsed) as (C1 & C2 & _ & _).
  exists parsed. split; [exact E|]. split; [|split; [|split; [|split]]].
  - unfold preassemble. rewrite E. cbn [mbind result_bind].
    apply build_base_png_classify, Hwf.
  - apply rebuilt_chunks_Forall; [split; vm_compute; reflexivity|exact Hwf].
  - apply rebuilt_chunks_unmanaged.
  - rewrite C2. reflexivity.
  - rewrite C1. destruct (slot_of_type (b "IHDR") parsed); simpl; lia.
Qed.

Lemma preassemble_any_buffer_witness :
  ∃ parsed,
    extract_chunks_from_bytes (PNG_SIGNATURE ++ b "truncated after the signature")
    = Ok parsed
    ∧ preassemble (PNG_SIGNATURE ++ b "truncated after the signature")
      = Ok (png_file (rebuilt_chunks parsed)).
Proof.
  destruct (preassemble_any_buffer (PNG_SIGNATURE ++ b "truncated after the signature"))
    as (parsed & Hparse & Hrun & _).
  - vm_compute. reflexivity.
  - exists parsed. split; assumption.
Defined.

(** X11. The rebuild is idempotent: whatever buffer the stage accepts, its
    output is a buffer on which the stage returns that same output. *)
Theorem preassemble_idempotent (data out : bytes) :
  preassemble data = Ok out → preassemble out = Ok out.
Proof.
  intros Hrun.
  destruct (decide (slice_to data 8 = PNG_SIGNATURE)) as [Hsig|Hsig].
  2:{ unfold preassemble, extract_chunks_from_bytes in Hrun.
      destruct (decide (slice_to data 8 = PNG_SIGNATURE)); [contradiction|].
      discriminate Hrun. }
  assert (Hshape : ∃ parsed, out = png_file (rebuilt_chunks parsed)
                             ∧ Forall wf_chunk parsed).
  { unfold preassemble in Hrun.
    destruct (extract_chunks_from_bytes data) as [parsed|e] eqn:E; [|discriminate].
    assert (Hwf : Forall wf_chunk parsed).
    { unfold extract_chunks_from_bytes in E.
      destruct (decide (slice_to data 8 = PNG_SIGNATURE)); [|discriminate].
      apply extract_loop_yields in E as (new & -> & Hwf & _); [exact Hwf|lia]. }
    cbn [mbind result_bind] in Hrun.
    rewrite build_base_png_classify in Hrun by exact Hwf.
    injection Hrun as <-. eauto. }
  destruct Hshape as (parsed & -> & Hwf).
  assert (Hwf' : Forall wf_chunk (rebuilt_chunks parsed)).
  { apply rebuilt_chunks_Forall; [split; vm_compute; reflexivity|exact Hwf]. }
  unfold preassemble.
  rewrite <- (app_nil_r (png_file (rebuilt_chunks parsed))) at 1.
  rewrite extract_chunks_png_file; [|exact Hwf'|].
  - rewrite app_nil_r. cbn [mbind result_bind].
    rewrite build_base_png_classify by exact Hwf'.
    rewrite rebuilt_chunks_idempotent. reflexivity.
  - eapply Forall_impl; [apply rebuilt_chunks_unmanaged|].
    intros c Hc E. apply Hc. rewrite E. apply list_elem_of_here.
Qed.

Lemma preassemble_idempotent_witness :
  preassemble (PNG_SIGNATURE ++ frame (b "IHDR") example_ihdr_data
               ++ frame (b "sRGB") [Byte.x00] ++ frame (b "tEXt") (b "Software")
               ++ frame (b "IDAT") example_idat_data ++ frame (b "IEND") [])
  = Ok (PNG_SIGNATURE ++ frame (b "IHDR") example_ihdr_data
        ++ frame (b "sRGB") [Byte.x00] ++ frame (b "tEXt") (b "Software")
        ++ frame (b "IDAT") example_idat_data ++ frame (b "IEND") []).
Proof.
  apply (preassemble_idempotent (png_file example_chunks_with_phys)).
  vm_compute. reflexivity.
Defined.

(** ** Where pHYs and sBIT end up *)

Lemma type_absent_Forall (ty : bytes) (cs : list chunk) :
  ty ∉ cs.*1 ↔ Forall (λ c, c.1 ≠ ty) cs.
Proof.
  rewrite Forall_forall. split.
  - intros Hn c Hc E. apply Hn. rewrite <- E. apply list_elem_of_fmap_2, Hc.
  - intros Hf Hin. apply list_elem_of_fmap_1 in Hin as (c & -> & Hc).
    exact (Hf c Hc eq_refl).
Qed.

(** X12. The final layout when the metadata tool has added an eXIf chunk
    and the file has neither pHYs nor sBIT: the step puts the default pHYs
    chunk right after the first eXIf chunk and the default sBIT chunk right
    after that pHYs chunk, leaving every other chunk where it was. *)
Theorem reposition_after_exif (before after : list chunk) (payload : bytes) :
  let cs := before ++ (b "eXIf", payload) :: after in
  Forall wf_chunk cs → Forall (λ c, c.1 ≠ b "IEND") cs →
  Forall (λ c, c.1 ≠ b "eXIf") before →
  b "pHYs" ∉ cs.*1 → b "sBIT" ∉ cs.*1 →
  reposition (png_file cs)
  = Ok (png_file (before ++ (b "eXIf", payload) :: (b "pHYs", default_phys)
                         :: (b "sBIT", default_sbit) :: after)).
Proof.
  intros cs Hwf Hne Hex Hp Hs.
  rewrite reposition_png_file by assumption. unfold reposition_chunks.
  rewrite (bool_decide_eq_false_2 _ Hp), (bool_decide_eq_false_2 _ Hs).
  subst cs. rewrite insert_after_first_present by (assumption || reflexivity).
  apply type_absent_Forall in Hp. apply Forall_app in Hp as [Hp _].
  rewrite (cons_middle (b "eXIf", payload)), app_assoc.
  rewrite insert_after_first_present; [|..|reflexivity].
  - rewrite <- app_assoc. reflexivity.
  - apply Forall_app. split; [exact Hp|].
    repeat constructor. cbn [fst]. intros H. vm_compute in H. discriminate H.
Qed.

Lemma reposition_after_exif_witness :
  reposition (png_file ([(b "IHDR", example_ihdr_data); (b "sRGB", [Byte.x00])]
                        ++ (b "eXIf", b "exif") :: [(b "IDAT", example_idat_data)]))
  = Ok (png_file example_converted_chunks).
Proof.
  apply (reposition_after_exif [(b "IHDR", example_ihdr_data); (b "sRGB", [Byte.x00])]
           [(b "IDAT", example_idat_data)] (b "exif")).
  - wf_chunks_by_computation.
  - types_differ_by_computation.
  - types_differ_by_computation.
  - apply type_absent_Forall. types_differ_by_computation.
  - apply type_absent_Forall. types_differ_by_computation.
Defined.

(** X13. Without an eXIf chunk (and without pHYs and sBIT) the fallback
    applies: the default pHYs and sBIT chunks are written, in this order,
    as the last chunks before the terminal chunk, that is after the IDAT
    chunks. *)
Theorem reposition_without_exif (cs : list chunk) :
  Forall wf_chunk cs → Forall (λ c, c.1 ≠ b "IEND") cs →
  b "eXIf" ∉ cs.*1 → b "pHYs" ∉ cs.*1 → b "sBIT" ∉ cs.*1 →
  reposition (png_file cs)
  = Ok (png_file (cs ++ [(b "pHYs", default_phys); (b "sBIT", default_sbit)])).
Proof.
  intros Hwf Hne Hex Hp Hs.
  rewrite reposition_png_file by assumption. unfold reposition_chunks.
  rewrite (bool_decide_eq_false_2 _ Hp), (bool_decide_eq_false_2 _ Hs).
  apply type_absent_Forall in Hex, Hp.
  rewrite (insert_after_first_absent (b "eXIf")) by exact Hex.
  rewrite (insert_after_first_present (b "pHYs") _ (b "pHYs", default_phys) cs [])
    by (assumption || reflexivity).
  reflexivity.
Qed.

Lemma reposition_without_exif_witness :
  reposition (png_file example_chunks)
  = Ok (png_file (example_chunks
                  ++ [(b "pHYs", default_phys); (b "sBIT", default_sbit)])).
Proof.
  apply (reposition_without_exif example_chunks).
  - unfold example_chunks. wf_chunks_by_computation.
  - unfold example_chunks. types_differ_by_computation.
  - apply type_absent_Forall. unfold example_chunks. types_differ_by_computation.
  - apply type_absent_Forall. unfold example_chunks. types_differ_by_computation.
  - apply type_absent_Forall. unfold example_chunks. types_differ_by_computation.
Defined.

Lemma insert_after_first_sublist (anchor : bytes) (new : chunk) (cs : list chunk) :
  cs `sublist_of` insert_after_first anchor new cs.
Proof.
  induction cs as [|c cs IH]; simpl.
  - apply sublist_nil_l.
  - destruct (decide (c.1 = anchor)).
    + apply sublist_skip, sublist_cons. reflexivity.
    + apply sublist_skip, IH.
Qed.

Lemma insert_after_first_length (anchor : bytes) (new : chunk) (cs : list chunk) :
  length (insert_after_first anchor new cs) = S (length cs).
Proof.
  induction cs as [|c cs IH]; simpl; [reflexivity|].
  destruct (decide (c.1 = anchor)); simpl; [reflexivity|]. rewrite IH. reflexivity.
Qed.

(** X14. The step only adds: on every PNG file its result is a PNG file
    whose chunk sequence contains the chunks of the input in their order,
    has at most two chunks more, and has a pHYs and an sBIT chunk. *)
Theorem reposition_only_adds (cs : list chunk) :
  Forall wf_chunk cs → Forall (λ c, c.1 ≠ b "IEND") cs →
  ∃ cs',
    reposition (png_file cs) = Ok (png_file cs')
    ∧ cs `sublist_of` cs'
    ∧ (length cs' <= length cs + 2)%nat
    ∧ b "pHYs" ∈ cs'.*1 ∧ b "sBIT" ∈ cs'.*1.
Proof.
  intros Hwf Hne. exists (reposition_chunks cs).
  split; [apply reposition_png_file; assumption|].
  split; [|split; [|apply reposition_chunks_complete]].
  - unfold reposition_chunks.
    destruct (bool_decide (b "pHYs" ∈ cs.*1)), (bool_decide (b "sBIT" ∈ cs.*1));
      try reflexivity; try apply insert_after_first_sublist.
    etrans; apply insert_after_first_sublist.
  - unfold reposition_chunks.
    destruct (bool_decide (b "pHYs" ∈ cs.*1)), (bool_decide (b "sBIT" ∈ cs.*1));
      rewrite ?insert_after_first_length; lia.
Qed.

Lemma reposition_only_adds_witness :
  ∃ cs',
    reposition (png_file example_chunks_with_phys) = Ok (png_file cs')
    ∧ example_chunks_with_phys `sublist_of` cs'
    ∧ b "sBIT" ∈ cs'.*1.
Proof.
  destruct (reposition_only_adds example_chunks_with_phys)
    as (cs' & Hrun & Hsub & _ & _ & Hs).
  - unfold example_chunks_with_phys. wf_chunks_by_computation.
  - unfold example_chunks_with_phys. types_differ_by_computation.
  - exists cs'. repeat split; assumption.
Defined.


(** ** Conversions that fail at once, and conversions of PNG input *)

Section ConversionRuns.

Context `{Collaborators}.

(** X15. A conversion whose input path does not exist, or holds something
    the image library cannot open, raises before it has printed a line or
    written a file: the state is exactly what it was. *)
Theorem convert_unreadable_input (batch_mode : bool) (input_path : string)
    (output_path : option string) (preserve_date : bool) (st : state) :
  files st !! input_path = None
  ∨ (∃ f, files st !! input_path = Some f ∧ pil_open (content f) = None) →
  ∃ e, convert_android_to_ios batch_mode input_path output_path preserve_date st
       = (Raise e, st).
Proof.
  intros [Hmiss|(f & Hf & Hopen)];
    unfold convert_android_to_ios, prepare, image_open, read_file;
    unfold mbind at 1, M_bind at 1; unfold mbind at 1, M_bind at 1;
    unfold mbind at 1, M_bind at 1.
  - rewrite Hmiss. eauto.
  - rewrite Hf, Hopen. cbn. eauto.
Qed.




End ConversionRuns.


Lemma convert_unreadable_input_witness :
  ∃ e, convert_android_to_ios (H:=machine_without_exiftool)
         false "missing.png" None true jpeg_only
       = (Raise e, jpeg_only).
Proof.
  apply (convert_unreadable_input (H:=machine_without_exiftool)).
  left. vm_compute. reflexivity.
Defined.

(** ** Temporaries on the success path *)

Section SuccessPath.

Context `{Collaborators}.

Lemma keeps_quiet {A} (P : gmap string file → Prop) (m : M A) : quiet m → keeps P m.
Proof. intros Hq st HP. rewrite Hq. exact HP. Qed.

Lemma keeps_bind {A B} (P : gmap string file → Prop) (m : M A) (f : A → M B) :
  keeps P m → (∀ a, keeps P (f a)) → keeps P (m ≫= f).
Proof.
  intros Hm Hf st HP. unfold mbind, M_bind. specialize (Hm st HP).
  destruct (m st) as [[a|e] st']; cbn [snd] in *; [|exact Hm].
  apply Hf, Hm.
Qed.

Lemma keeps_try {A} (P : gmap string file → Prop) (body : M A) (handler : exn → M A) :
  keeps P body → (∀ e, keeps P (handler e)) → keeps P (try_except body handler).
Proof.
  intros Hm Hf st HP. unfold try_except. specialize (Hm st HP).
  destruct (body st) as [[a|e] st']; cbn [snd] in *; [exact Hm|].
  apply Hf, Hm.
Qed.

Lemma keeps_utime (P : gmap string file → Prop) (path : string) (t : Z) :
  (∀ fs f, P fs → P (<[path := f]> fs)) → keeps P (utime path t).
Proof.
  intros Hins st HP. unfold utime.
  destruct (files st !! path); cbn [snd files]; auto.
Qed.

Lemma keeps_run_exiftool (P : gmap string file → Prop) (cmd : list string)
    (target : string) :
  (∀ fs f, P fs → P (<[target := f]> fs)) → (∀ fs, P fs → P (delete target fs)) →
  keeps P (run_exiftool cmd target).
Proof.
  intros Hins Hdel st HP. unfold run_exiftool.
  destruct (exiftool cmd (files st)) as [out|stderr [data|]|]; cbn [snd files]; auto.
Qed.

Lemma triple_keeps {A} (P : gmap string file → Prop) (m : M A) :
  keeps P m → triple P m (λ _, P).
Proof.
  intros Hk st a st' HP E. specialize (Hk st HP). rewrite E in Hk. exact Hk.
Qed.

Lemma triple_true {A} (P : gmap string file → Prop) (m : M A) :
  triple P m (λ _ _, True).
Proof. intros st a st' _ _. exact I. Qed.

Lemma triple_remove_if_exists (P : gmap string file → Prop) (path : string) :
  (∀ fs, P fs → P (delete path fs)) →
  triple P (remove_if_exists path) (λ _ fs, fs !! path = None ∧ P fs).
Proof.
  intros Hdel [fs out] a st' HP E. rewrite remove_if_exists_run in E.
  injection E as _ <-. cbn [files] in *. split; [apply lookup_delete_eq|auto].
Qed.

(** What the last stage leaves when it returns: the destination path as
    its result, and neither temporary on disk. *)
Lemma reposition_and_finalize_triple (batch_mode preserve_date : bool) (p : prepared) :
  p_temp_file1 p = p_output_path p +:+ ".temp1" →
  (∀ t, p_temp_png p = Some t → t = p_output_path p +:+ ".temp_png") →
  triple (λ _, True) (reposition_and_finalize batch_mode preserve_date p)
    (λ r fs,
       r = Some (p_output_path p)
       ∧ fs !! p_temp_file1 p = None
       ∧ ∀ t, p_temp_png p = Some t → fs !! t = None).
Proof.
  intros Htemp Hpng.
  set (P := λ fs : gmap string file,
         fs !! p_temp_file1 p = None ∧ ∀ t, p_temp_png p = Some t → fs !! t = None).
  assert (Hins : ∀ fs f, P fs → P (<[p_output_path p := f]> fs)).
  { intros fs f [H1 H2]. split.
    - rewrite lookup_insert_ne; [exact H1|].
      rewrite Htemp. intros E. symmetry in E. revert E. apply temp_file1_ne_output.
    - intros t Ht. rewrite lookup_insert_ne; [exact (H2 t Ht)|].
      rewrite (Hpng t Ht). intros E. symmetry in E. revert E. apply temp_png_ne_output. }
  assert (Hdel : ∀ path fs, P fs → P (delete path fs)).
  { intros path fs [H1 H2]. split.
    - apply lookup_delete_None. auto.
    - intros t Ht. apply lookup_delete_None. auto. }
  unfold reposition_and_finalize.
  eapply triple_bind; [apply triple_true|]. intros png_data.
  eapply triple_bind; [apply triple_true|]. intros temp_chunks.
  eapply triple_bind; [apply triple_true|]. intros png_data'.
  eapply triple_bind; [apply triple_true|]. intros ?.
  eapply triple_bind.
  { apply (triple_remove_if_exists (λ _, True)). auto. }
  intros ?.
  apply (triple_bind _ (λ _, P)).
  { destruct (p_temp_png p) as [t|] eqn:Et.
    - rewrite bool_decide_eq_true_2
        by (rewrite (Hpng t eq_refl); destruct (p_output_path p); discriminate).
      intros st0 r0 st0' [H1 _] E.
      pose proof (triple_remove_if_exists (λ fs, fs !! p_temp_file1 p = None) t
                    ltac:(intros fs Hfs; apply lookup_delete_None; auto)
                    st0 r0 st0' H1 E) as [H2 H3].
      split; [exact H3|]. intros t' Ht'. injection Ht' as <-. exact H2.
    - apply triple_ret. intros fs [H1 _]. split; [exact H1|]. intros t Ht. discriminate Ht. }
  intros ?.
  eapply triple_bind.
  { apply triple_keeps. destruct preserve_date; [|apply keeps_quiet, quiet_ret].
    apply keeps_try; [|intros ?; apply keeps_quiet, quiet_ret].
    apply keeps_bind; [apply keeps_quiet, quiet_getmtime|]. intros t.
    apply keeps_utime, Hins. }
  intros ?.
  eapply triple_bind.
  { apply triple_keeps. apply keeps_try; [|intros ?; apply keeps_quiet, quiet_ret].
    apply keeps_run_exiftool; [apply Hins|apply Hdel]. }
  intros ?.
  eapply triple_bind; [apply triple_keeps, keeps_quiet, quiet_verify_description|].
  intros ?.
  eapply triple_bind; [apply triple_keeps, keeps_quiet, quiet_verify_chunk_order|].
  intros ?.
  apply triple_ret. intros fs [H1 H2]. auto.
Qed.

(** X17. A conversion that returns a path returns the destination path, and
    has removed what it created on the way: the intermediate file is gone,
    and so is the format-conversion temporary of a non-PNG input. *)
Theorem success_removes_temporaries (batch_mode : bool) (input_path : string)
    (output_path : option string) (preserve_date : bool) (st st1 st2 : state)
    (p : prepared) (path : string) :
  prepare batch_mode input_path output_path preserve_date st = (Ok p, st1) →
  convert_android_to_ios batch_mode input_path output_path preserve_date st
  = (Ok (Some path), st2) →
  path = default_output_path input_path output_path
  ∧ files st2 !! (path +:+ ".temp1") = None
  ∧ ∀ t, p_temp_png p = Some t → files st2 !! t = None.
Proof.
  intros Hprep Hrun.
  pose proof (prepare_triple batch_mode input_path output_path preserve_date
                st p st1 I Hprep) as (Hout & _ & Htemp & _ & Hpng).
  unfold convert_android_to_ios, mbind, M_bind in Hrun. rewrite Hprep in Hrun.
  fold (@mbind M _) in Hrun. unfold mbind, M_bind in Hrun.
  destruct (externalize_metadata batch_mode p st1) as [[[|]|e] st1'];
    [|discriminate Hrun..].
  assert (Htemp' : p_temp_file1 p = p_output_path p +:+ ".temp1")
    by (rewrite Hout; exact Htemp).
  assert (Hpng' : ∀ t, p_temp_png p = Some t → t = p_output_path p +:+ ".temp_png").
  { intros t Ht. rewrite Ht in Hpng. rewrite Hout. apply Hpng. }
  pose proof (reposition_and_finalize_triple batch_mode preserve_date p Htemp' Hpng'
                st1' (Some path) st2 I Hrun) as (Hpath & H1 & H2).
  injection Hpath as ->. rewrite <- Hout.
  split; [reflexivity|]. split; [rewrite <- Htemp'; exact H1|exact H2].
Qed.

End SuccessPath.

Lemma success_removes_temporaries_witness :
  files (convert_android_to_ios (H:=machine_with_exiftool)
           false "shot.jpg" (Some "shot.png") true jpeg_only).2
    !! ("shot.png" +:+ ".temp1") = None.
Proof.
  destruct (convert_android_to_ios (H:=machine_with_exiftool)
              false "shot.jpg" (Some "shot.png") true jpeg_only)
    as [r st2] eqn:Hrun.
  destruct (prepare (H:=machine_with_exiftool)
              false "shot.jpg" (Some "shot.png") true jpeg_only)
    as [rp st1] eqn:Hprep.
  assert (Hr : r = Ok (Some "shot.png")).
  { apply (f_equal fst) in Hrun. vm_compute in Hrun. congruence. }
  assert (Hp : ∃ p, rp = Ok p).
  { apply (f_equal fst) in Hprep. vm_compute in Hprep. rewrite <- Hprep. eauto. }
  destruct Hp as [p ->]. subst r.
  destruct (success_removes_temporaries (H:=machine_with_exiftool)
              false "shot.jpg" (Some "shot.png") true jpeg_only st1 st2 p "shot.png"
              Hprep Hrun) as (_ & Hgone & _).
  exact Hgone.
Defined.

(** ** The batch loop *)

Lemma string_length_app (s t : string) :
  String.length (s +:+ t) = (String.length s + String.length t)%nat.
Proof. induction s as [|c s IH]; simpl; [reflexivity|]. rewrite IH. reflexivity. Qed.

Lemma string_app_inj_r (s1 s2 t : string) : s1 +:+ t = s2 +:+ t → s1 = s2.
Proof.
  revert s2. induction s1 as [|c s1 IH]; intros [|c' s2] E.
  - reflexivity.
  - apply (f_equal String.length) in E.
    rewrite !string_length_app in E. simpl in E. lia.
  - apply (f_equal String.length) in E.
    rewrite !string_length_app in E. simpl in E. lia.
  - simpl in E. injection E as -> E. f_equal. apply IH, E.
Qed.

Lemma occurrences_cons (name x : string) (names : list string) :
  occurrences name (x :: names)
  = ((if decide (x = name) then 1 else 0) + occurrences name names)%nat.
Proof.
  unfold occurrences. rewrite filter_cons.
  destruct (decide (x = name)); reflexivity.
Qed.

Lemma occurrences_take_lt (name : string) (names : list string) :
  ∀ i j, (i < j)%nat → names !! i = Some name →
    (occurrences name (take i names) < occurrences name (take j names))%nat.
Proof.
  induction names as [|x names IH]; intros i j Hij Hi; [discriminate Hi|].
  destruct j as [|j]; [lia|]. destruct i as [|i].
  - injection Hi as ->. cbn [take]. rewrite occurrences_cons.
    rewrite decide_True by reflexivity. unfold occurrences at 1. simpl. lia.
  - cbn [take]. rewrite !occurrences_cons.
    specialize (IH i j ltac:(lia) Hi). lia.
Qed.

Section BatchRuns.

Context `{Collaborators} `{PathLib}.

Lemma numbered_inj (name : string) (n m : nat) :
  numbered name n = numbered name m → n = m.
Proof.
  unfold numbered. destruct (splitext name) as [base_name_part ext_part].
  intros E. do 2 apply String.app_inj in E.
  apply string_app_inj_r in E. apply (inj pretty) in E. exact E.
Qed.

Lemma numbered_ne_name (name : string) (n : nat) :
  (splitext name).1 +:+ (splitext name).2 = name → numbered name n ≠ name.
Proof.
  unfold numbered. destruct (splitext name) as [base_name_part ext_part].
  cbn [fst snd]. intros <- E. apply String.app_inj in E.
  apply (f_equal String.length) in E.
  rewrite !string_length_app in E. simpl in E. lia.
Qed.

Lemma claim_all_cons (used : gmap string nat) (name : string) (rest : list string) :
  claim_all used (name :: rest)
  = ((claim_filename used name).1 :: (claim_all (claim_filename used name).2 rest).1,
     (claim_all (claim_filename used name).2 rest).2).
Proof.
  simpl. destruct (claim_filename used name) as [out used']. cbn [fst snd].
  destruct (claim_all used' rest). reflexivity.
Qed.

(** The name of an input whose preliminary name was seen [seen] times
    earlier in the batch, when the dictionary held [count] for it before
    the batch. *)
Lemma claim_all_lookup (names : list string) :
  ∀ (used : gmap string nat) (k : nat) (name : string),
    names !! k = Some name →
    (claim_all used names).1 !! k
    = Some (let seen := occurrences name (take k names) in
            match used !! name with
            | Some count => numbered name (count + 1 + seen)
            | None => if decide (seen = 0%nat) then name else numbered name seen
            end).
Proof.
  induction names as [|x names IH]; intros used k name Hk; [discriminate Hk|].
  rewrite claim_all_cons. cbn [fst]. destruct k as [|k].
  - injection Hk as ->. cbn [take lookup list_lookup]. unfold claim_filename.
    destruct (used !! name) as [count|]; cbn [fst].
    + do 2 f_equal. unfold occurrences. simpl. lia.
    + reflexivity.
  - cbn [lookup list_lookup] in Hk |- *. rewrite (IH _ k name Hk).
    cbn [take]. cbn zeta. rewrite occurrences_cons. f_equal.
    unfold claim_filename. destruct (decide (x = name)) as [->|Hne].
    + destruct (used !! name) as [count|]; cbn [snd];
        rewrite lookup_insert_eq.
      * f_equal. lia.
      * rewrite decide_False by lia. f_equal.
    + destruct (used !! x) as [count|] eqn:Ex; cbn [snd];
        rewrite lookup_insert_ne by exact Hne; reflexivity.
Qed.

Lemma process_file_run (output_dir : string) (preserve_date : bool) (total : nat)
    (acc : batch_state) (i : nat) (image_file : string) (st : state) :
  ∃ acc' st',
    process_file output_dir preserve_date total acc i image_file st = (Ok acc', st')
    ∧ used_filenames acc'
      = (claim_filename (used_filenames acc)
           (output_filename_for (basename image_file))).2
    ∧ (success_count acc' + fail_count acc'
       = success_count acc + fail_count acc + 1)%nat.
Proof.
  unfold process_file.
  destruct (claim_filename (used_filenames acc)
              (output_filename_for (basename image_file))) as [name used].
  unfold mbind at 1, M_bind at 1. cbn [print]. unfold try_except, mbind, M_bind.
  match goal with
  | |- context [convert_android_to_ios ?flag ?src ?dst ?keep ?s] =>
      destruct (convert_android_to_ios flag src dst keep s) as [[r|err] st1]
  end.
  - destruct (truthy r); cbn; eexists _, _; (split; [reflexivity|]);
      cbn; split; (reflexivity || lia).
  - cbn. eexists _, _. split; [reflexivity|]. cbn. split; (reflexivity || lia).
Qed.

Lemma process_files_returns (output_dir : string) (preserve_date : bool) (total : nat)
    (image_files : list string) :
  ∀ (acc : batch_state) (i : nat) (st : state),
    ∃ acc' st',
      process_files output_dir preserve_date total acc i image_files st = (Ok acc', st').
Proof.
  induction image_files as [|image_file rest IH]; intros acc i st.
  - cbn. eauto.
  - cbn [process_files]. unfold mbind, M_bind.
    destruct (process_file_run output_dir preserve_date total acc i image_file st)
      as (acc1 & st1 & -> & _).
    apply IH.
Qed.

(** X18. The loop over the image files never raises, whatever the
    conversions do: each file is counted exactly once, as a success or as a
    failure, and the dictionary of used names ends as the successive name
    choices leave it. *)
Theorem process_files_counts (output_dir : string) (preserve_date : bool) (total : nat)
    (image_files : list string) :
  ∀ (acc : batch_state) (i : nat) (st : state),
    ∃ acc' st',
      process_files output_dir preserve_date total acc i image_files st = (Ok acc', st')
      ∧ (success_count acc' + fail_count acc'
         = success_count acc + fail_count acc + length image_files)%nat
      ∧ used_filenames acc'
        = (claim_all (used_filenames acc)
             ((λ image_file, output_filename_for (basename image_file))
                <$> image_files)).2.
Proof.
  induction image_files as [|image_file rest IH]; intros acc i st.
  - cbn. eexists _, _. split; [reflexivity|]. split; [lia|reflexivity].
  - cbn [process_files]. unfold mbind, M_bind.
    destruct (process_file_run output_dir preserve_date total acc i image_file st)
      as (acc1 & st1 & -> & Hused & Hcount).
    destruct (IH acc1 (S i) st1) as (acc' & st' & -> & Hcount' & Hused').
    eexists _, _. split; [reflexivity|]. split.
    + cbn [length]. lia.
    + rewrite Hused', Hused, fmap_cons, claim_all_cons. reflexivity.
Qed.

(** X19. In a batch the input at position [k] keeps its preliminary name
    if no earlier input of the batch had the same preliminary name, and
    otherwise gets that name with [_n] put before the extension, [n] being
    the number of earlier inputs with the same preliminary name. *)
Theorem claim_all_occurrence (names : list string) (k : nat) (name : string) :
  names !! k = Some name →
  (claim_all ∅ names).1 !! k
  = Some (if decide (occurrences name (take k names) = 0%nat) then name
          else numbered name (occurrences name (take k names))).
Proof.
  intros Hk. rewrite (claim_all_lookup names ∅ k name Hk), lookup_empty.
  reflexivity.
Qed.

(** X20. Where [splitext] splits a name into two parts that give the name
    back, two inputs of a batch with the same preliminary name are
    converted to different output names. *)
Theorem claim_all_same_name_distinct (names : list string) (i j : nat) (name : string) :
  (splitext name).1 +:+ (splitext name).2 = name →
  (i < j)%nat → names !! i = Some name → names !! j = Some name →
  ∃ out_i out_j,
    (claim_all ∅ names).1 !! i = Some out_i
    ∧ (claim_all ∅ names).1 !! j = Some out_j
    ∧ out_i ≠ out_j.
Proof.
  intros Hsplit Hij Hi Hj.
  rewrite (claim_all_lookup names ∅ i name Hi), (claim_all_lookup names ∅ j name Hj).
  rewrite lookup_empty. cbn zeta.
  pose proof (occurrences_take_lt name names i j Hij Hi) as Hlt.
  eexists _, _. split; [reflexivity|]. split; [reflexivity|].
  rewrite (decide_False (P := occurrences name (take j names) = 0%nat)) by lia.
  destruct (decide (occurrences name (take i names) = 0%nat)).
  - intros E. symmetry in E. revert E. apply numbered_ne_name, Hsplit.
  - intros E. apply numbered_inj in E. lia.
Qed.

(** X21. The numbered name is not itself recorded as used: in a batch with
    two inputs named [name] and one whose own name is the first numbered
    name of [name], the second input named [name] is given the output name
    of that other input. *)
Theorem claim_all_collision (name : string) :
  numbered name 1 ≠ name →
  (claim_all ∅ [name; numbered name 1; name]).1
  = [name; numbered name 1; numbered name 1].
Proof.
  intros Hne. rewrite !claim_all_cons. cbn [fst snd claim_all].
  assert (E1 : claim_filename ∅ name = (name, <[name := 0%nat]> ∅)).
  { unfold claim_filename. rewrite lookup_empty. reflexivity. }
  rewrite E1. cbn [fst snd].
  assert (E2 : claim_filename (<[name := 0%nat]> ∅) (numbered name 1)
               = (numbered name 1, <[numbered name 1 := 0%nat]> (<[name := 0%nat]> ∅))).
  { unfold claim_filename.
    rewrite lookup_insert_ne by (intros E; apply Hne; symmetry; exact E).
    rewrite lookup_empty. reflexivity. }
  rewrite E2. cbn [fst snd].
  unfold claim_filename. rewrite lookup_insert_ne by exact Hne.
  rewrite lookup_insert_eq. reflexivity.
Qed.

(** X22. A batch run raises only if the output directory cannot be made,
    and then before it has printed a line or touched a file; once the
    directory is there, no failure of a conversion ends the run. *)
Theorem process_directory_raises_only_makedirs (directory : string)
    (output_dir : option string) (preserve_date : bool) (st st' : state) (e : exn) :
  process_directory directory output_dir preserve_date st = (Raise e, st') →
  st' = st
  ∧ os_makedirs (match output_dir with
                 | Some dir => dir
                 | None => path_join directory "ios_output"
                 end) (files st) = Raise e.
Proof.
  unfold process_directory.
  destruct (os_isdir directory (files st)); cbn [negb]; [|discriminate].
  unfold mbind at 1, M_bind at 1. unfold get_image_files.
  destruct (merge_sort String.le (collect_image_files directory (files st)))
    as [|image_file rest]; [discriminate|].
  set (image_files := image_file :: rest).
  set (dir := match output_dir with Some dir => dir | None => _ end).
  unfold mbind at 1, M_bind at 1. unfold lift.
  destruct (os_makedirs dir (files st)) as [[]|e0].
  2:{ intros E. injection E as -> ->. split; reflexivity. }
  unfold mbind at 1, M_bind at 1. cbn [print].
  unfold mbind at 1, M_bind at 1. cbn [print].
  unfold mbind at 1, M_bind at 1. cbn [print].
  unfold mbind at 1, M_bind at 1. cbn [print].
  unfold mbind at 1, M_bind at 1.
  match goal with
  | |- context [process_files ?a ?c ?d ?f ?g ?h ?s] =>
      destruct (process_files_returns a c d h f g s) as (acc & st1 & ->)
  end.
  cbn. discriminate.
Qed.


End BatchRuns.

Lemma claim_all_occurrence_witness :
  (claim_all (H:=machine_with_splitext) ∅ ["a.png"; "b.png"; "a.png"; "a.png"]).1 !! 3%nat
  = Some "a_2.png".
Proof.
  exact (claim_all_occurrence (H:=machine_with_splitext)
           ["a.png"; "b.png"; "a.png"; "a.png"] 3 "a.png" eq_refl).
Defined.

Lemma claim_all_same_name_distinct_witness :
  ∃ out_i out_j,
    (claim_all (H:=machine_with_splitext) ∅ ["a.png"; "b.png"; "a.png"]).1 !! 0%nat
    = Some out_i
    ∧ (claim_all (H:=machine_with_splitext) ∅ ["a.png"; "b.png"; "a.png"]).1 !! 2%nat
      = Some out_j
    ∧ out_i ≠ out_j.
Proof.
  apply (claim_all_same_name_distinct (H:=machine_with_splitext)
           ["a.png"; "b.png"; "a.png"] 0 2 "a.png").
  - reflexivity.
  - lia.
  - reflexivity.
  - reflexivity.
Defined.

Lemma claim_all_collision_witness :
  (claim_all (H:=machine_with_splitext) ∅ ["a.png"; "a_1.png"; "a.png"]).1
  = ["a.png"; "a_1.png"; "a_1.png"].
Proof.
  apply (claim_all_collision (H:=machine_with_splitext) "a.png").
  vm_compute. discriminate.
Defined.

Lemma process_directory_raises_only_makedirs_witness :
  os_makedirs (PathLib:=example_paths) "" (files example_shots) = Raise FileNotFoundError.
Proof.
  destruct (process_directory (H:=machine_with_splitext) (H0:=example_paths)
              "shots" (Some "") true example_shots) as [r st'] eqn:Hrun.
  assert (Hr : r = Raise FileNotFoundError).
  { apply (f_equal fst) in Hrun. vm_compute in Hrun. congruence. }
  subst r.
  exact (proj2 (process_directory_raises_only_makedirs (H:=machine_with_splitext)
                  (H0:=example_paths) "shots" (Some "") true example_shots st'
                  FileNotFoundError Hrun)).
Defined.
